(** * Dynamic registration: schema-driven validation and tenant storage routing

    A shallow embedding of the validation engine ([shared/validation.js]),
    the tenant connection manager ([utils/tenantConnection.js]), the
    per-tenant model factory ([backend/models/DynamicUser.js]) and the
    registration and admin routes, followed by the properties proved
    about them.

    Conventions of the embedding.
    - A JavaScript string is a [string]: a sequence of code units below 256.
    - A JavaScript number is an integer ([Z]); [NaN] and [Infinity] appear
      only where the code can produce them ([parseInt], a division).
    - A JavaScript object used as a dictionary ([errors], [validatedFields],
      the request body, the connection caches) is a [gmap] over its own
      properties; inherited properties are not modelled.
    - Mongoose connections are mutable objects shared by reference: they
      live in a heap indexed by identity and the caches hold identities. *)

From Stdlib Require Import ZArith Ascii String List Lia Bool DecimalString.
From stdpp Require Import base gmap strings list sorting.

Open Scope string_scope.
Open Scope Z_scope.

(** ** JavaScript values and the built-ins the code relies on *)

Inductive jsval : Type :=
| JUndefined
| JNull
| JBool (b : bool)
| JNum (n : Z)
| JStr (s : string).

#[global] Instance jsval_eq_dec : EqDecision jsval.
Proof. solve_decision. Defined.

(** [!value]: the falsy values are [undefined], [null], [false], [0] and
    the empty string. *)
Definition falsy (v : jsval) : bool :=
  match v with
  | JUndefined | JNull => true
  | JBool b => negb b
  | JNum n => n =? 0
  | JStr s => String.eqb s ""
  end.

Definition string_of_Z (n : Z) : string := NilZero.string_of_int (Z.to_int n).

(** [String(value)]. *)
Definition ToString (v : jsval) : string :=
  match v with
  | JUndefined => "undefined"
  | JNull => "null"
  | JBool true => "true"
  | JBool false => "false"
  | JNum n => string_of_Z n
  | JStr s => s
  end.

(** [obj[key]] on a dictionary: [undefined] when the key is not there. *)
Definition getProp (obj : gmap string jsval) (key : string) : jsval :=
  default JUndefined (obj !! key).

(** [a || b] on strings: the empty string is falsy. *)
Definition orElse (a b : string) : string :=
  if String.eqb a "" then b else a.

Definition code (c : ascii) : nat := nat_of_ascii c.

Definition inRange (lo hi : nat) (c : ascii) : bool :=
  (Nat.leb lo (code c)) && (Nat.leb (code c) hi).

(** White space and line terminators below 256: TAB, LF, VT, FF, CR, SP
    and NBSP.  This is both the [\s] class and what [trim] strips. *)
Definition isSpace (c : ascii) : bool :=
  inRange 9 13 c || Nat.eqb (code c) 32 || Nat.eqb (code c) 160.

Definition isDigit (c : ascii) : bool := inRange 48 57 c.
Definition isLower (c : ascii) : bool := inRange 97 122 c.
Definition isUpper (c : ascii) : bool := inRange 65 90 c.

Fixpoint trimStart (s : string) : string :=
  match s with
  | String c s' => if isSpace c then trimStart s' else s
  | EmptyString => EmptyString
  end.

Fixpoint trimEnd (s : string) : string :=
  match s with
  | String c s' =>
      let r := trimEnd s' in
      if isSpace c && String.eqb r "" then "" else String c r
  | EmptyString => EmptyString
  end.

(** [s.trim()]. *)
Definition trim (s : string) : string := trimEnd (trimStart s).

Fixpoint filterString (p : ascii -> bool) (s : string) : string :=
  match s with
  | String c s' => if p c then String c (filterString p s') else filterString p s'
  | EmptyString => EmptyString
  end.

Fixpoint mapString (f : ascii -> ascii) (s : string) : string :=
  match s with
  | String c s' => String (f c) (mapString f s')
  | EmptyString => EmptyString
  end.

Fixpoint allString (p : ascii -> bool) (s : string) : bool :=
  match s with
  | String c s' => p c && allString p s'
  | EmptyString => true
  end.

(** [c.toLowerCase()] on one code unit: A-Z, and the Latin-1 capitals
    (192..222 without the multiplication sign 215). *)
Definition lowerChar (c : ascii) : ascii :=
  if isUpper c || (inRange 192 222 c && negb (Nat.eqb (code c) 215))
  then ascii_of_nat (code c + 32) else c.

Definition toLowerCase (s : string) : string := mapString lowerChar s.

(** *** A matcher for the regular expressions written in the source

    The literal expressions of the source use character classes,
    concatenation and repetition only; they are written as terms of
    [regex] and run by derivatives.  All of them are anchored at both
    ends, so [test] is a match of the whole string. *)

Inductive regex : Type :=
| RNone
| REps
| RClass (p : ascii -> bool)
| RSeq (r1 r2 : regex)
| RAlt (r1 r2 : regex)
| RStar (r : regex).

Fixpoint nullable (r : regex) : bool :=
  match r with
  | RNone => false
  | REps => true
  | RClass _ => false
  | RSeq r1 r2 => nullable r1 && nullable r2
  | RAlt r1 r2 => nullable r1 || nullable r2
  | RStar _ => true
  end.

Fixpoint deriv (c : ascii) (r : regex) : regex :=
  match r with
  | RNone => RNone
  | REps => RNone
  | RClass p => if p c then REps else RNone
  | RSeq r1 r2 =>
      if nullable r1 then RAlt (RSeq (deriv c r1) r2) (deriv c r2)
      else RSeq (deriv c r1) r2
  | RAlt r1 r2 => RAlt (deriv c r1) (deriv c r2)
  | RStar r1 => RSeq (deriv c r1) (RStar r1)
  end.

Fixpoint fullMatch (r : regex) (s : string) : bool :=
  match s with
  | String c s' => fullMatch (deriv c r) s'
  | EmptyString => nullable r
  end.

Definition RPlus (r : regex) : regex := RSeq r (RStar r).
Definition ROpt (r : regex) : regex := RAlt REps r.
Definition RChar (a : ascii) : regex := RClass (Ascii.eqb a).

Fixpoint RTimes (n : nat) (r : regex) : regex :=
  match n with
  | O => REps
  | S n' => RSeq r (RTimes n' r)
  end.

Fixpoint RUpTo (n : nat) (r : regex) : regex :=
  match n with
  | O => REps
  | S n' => ROpt (RSeq r (RUpTo n' r))
  end.

(** [r{lo,hi}] *)
Definition RBetween (lo hi : nat) (r : regex) : regex :=
  RSeq (RTimes lo r) (RUpTo (hi - lo) r).

(** *** [parseInt] and [isNaN] on strings *)

Definition isHexDigit (c : ascii) : bool :=
  isDigit c || inRange 97 102 c || inRange 65 70 c.

Definition digitVal (c : ascii) : option Z :=
  if isDigit c then Some (Z.of_nat (code c - 48))
  else if inRange 97 102 c then Some (Z.of_nat (code c - 87))
  else if inRange 65 70 c then Some (Z.of_nat (code c - 55))
  else None.

(** The longest prefix of digits of the radix, as a number; [None] when
    the prefix is empty. *)
Fixpoint digitsPrefix (radix : Z) (acc : option Z) (s : string) : option Z :=
  match s with
  | String c s' =>
      match digitVal c with
      | Some d =>
          if d <? radix
          then digitsPrefix radix (Some (radix * default 0 acc + d)) s'
          else acc
      | None => acc
      end
  | EmptyString => acc
  end.

Definition stripHexPrefix (s : string) : option string :=
  match s with
  | String "0" (String "x" r) | String "0" (String "X" r) => Some r
  | _ => None
  end.

(** [parseInt(s)] with no radix argument; [None] is [NaN]. *)
Definition parseIntString (s : string) : option Z :=
  let s1 := trimStart s in
  let '(neg, s2) :=
    match s1 with
    | String "-" r => (true, r)
    | String "+" r => (false, r)
    | _ => (false, s1)
    end in
  let mag :=
    match stripHexPrefix s2 with
    | Some r => digitsPrefix 16 None r
    | None => digitsPrefix 10 None s2
    end in
  (fun m => if neg then - m else m) <$> mag.

(** [parseInt(v)]: the argument is first converted to a string. *)
Definition parseInt (v : jsval) : option Z := parseIntString (ToString v).

Fixpoint dropWhile (p : ascii -> bool) (s : string) : string :=
  match s with
  | String c s' => if p c then dropWhile p s' else s
  | EmptyString => EmptyString
  end.

Definition startsWithDigit (s : string) : bool :=
  match s with
  | String c _ => isDigit c
  | EmptyString => false
  end.

(** The exponent part of a decimal literal, then the end of the string. *)
Definition exponentThenEnd (s : string) : bool :=
  match s with
  | EmptyString => true
  | String c r =>
      if Ascii.eqb c "e" || Ascii.eqb c "E" then
        let r' := match r with
                  | String "+" t | String "-" t => t
                  | _ => r
                  end in
        startsWithDigit r' && String.eqb (dropWhile isDigit r') ""
      else false
  end.

(** An unsigned decimal literal: digits, an optional fraction, an
    optional exponent, with a digit on one side of the point at least. *)
Definition isDecimalLiteral (s : string) : bool :=
  let afterInt := dropWhile isDigit s in
  match afterInt with
  | String "." r =>
      (startsWithDigit s || startsWithDigit r) && exponentThenEnd (dropWhile isDigit r)
  | _ => startsWithDigit s && exponentThenEnd afterInt
  end.

Definition isRadixLiteral (s : string) : bool :=
  match s with
  | String "0" (String k r) =>
      if Ascii.eqb k "x" || Ascii.eqb k "X" then
        negb (String.eqb r "") && allString isHexDigit r
      else if Ascii.eqb k "o" || Ascii.eqb k "O" then
        negb (String.eqb r "") && allString (inRange 48 55) r
      else if Ascii.eqb k "b" || Ascii.eqb k "B" then
        negb (String.eqb r "") && allString (inRange 48 49) r
      else false
  | _ => false
  end.

(** Whether [Number(s)] is a number: the string, trimmed, is empty, a
    radix literal, or an optionally signed [Infinity] or decimal literal. *)
Definition isNumericString (s : string) : bool :=
  let t := trim s in
  if String.eqb t "" then true
  else if isRadixLiteral t then true
  else
    let u := match t with
             | String "+" r | String "-" r => r
             | _ => t
             end in
    String.eqb u "Infinity" || isDecimalLiteral u.

(** [isNaN(s)] for a string argument. *)
Definition isNaN (s : string) : bool := negb (isNumericString s).

(** ** The schema model ([models/FieldSchema.js]) *)

Inductive fieldType : Type := text | email | phone | number | textarea | select.

#[global] Instance fieldType_eq_dec : EqDecision fieldType.
Proof. solve_decision. Defined.

Record fieldOption : Type := { option_label : string; option_value : string }.

(** [minLength] and [maxLength] default to [null] ([None]); [pattern]
    defaults to [null] as well. *)
Record validationRules : Type := {
  required : bool;
  minLength : option Z;
  maxLength : option Z;
  pattern : option string
}.

(** An [errorMessage] that is absent and one that is the empty string
    behave alike in [field.errorMessage || ...]; both are [""] here. *)
Record FieldDefinition : Type := {
  id : string;
  label : string;
  type : fieldType;
  options : list fieldOption;
  validation : validationRules;
  errorMessage : string
}.

Record FieldSchema : Type := {
  schema_tenantId : string;
  fields : list FieldDefinition
}.

(** ** The validation engine ([shared/validation.js]) *)

(** [/^[^\s@]+@[^\s@]+\.[^\s@]+$/] *)
Definition emailRegex : regex :=
  let w := RClass (fun c => negb (isSpace c || Ascii.eqb c "@")) in
  RSeq (RPlus w) (RSeq (RChar "@") (RSeq (RPlus w) (RSeq (RChar ".") (RPlus w)))).

(** [/^[0-9]{10,15}$/] *)
Definition phoneRegex : regex := RBetween 10 15 (RClass isDigit).

(** The class of [/[\s\-\(\)]/g]. *)
Definition phoneFormatting (c : ascii) : bool :=
  isSpace c || Ascii.eqb c "-" || Ascii.eqb c "(" || Ascii.eqb c ")".

Definition validateEmail (value errorMessage : string) : option string :=
  if negb (fullMatch emailRegex value) then Some errorMessage else None.

Definition validatePhone (value errorMessage : string) : option string :=
  let cleanedPhone := filterString (fun c => negb (phoneFormatting c)) value in
  if negb (fullMatch phoneRegex cleanedPhone) then Some errorMessage else None.

Definition validateNumber (value errorMessage : string) : option string :=
  if isNaN value || String.eqb value "" then Some errorMessage else None.

Definition validateSelect (value : string) (options : list fieldOption)
    (errorMessage : string) : option string :=
  match options with
  | [] => None
  | _ =>
      let validValues := map option_value options in
      if negb (existsb (String.eqb value) validValues) then Some errorMessage else None
  end.

Definition validateByType (field : FieldDefinition) (value : string) : option string :=
  match type field with
  | email =>
      validateEmail value (orElse (errorMessage field) "Please enter a valid email address")
  | phone =>
      validatePhone value (orElse (errorMessage field) "Please enter a valid phone number")
  | number =>
      validateNumber value (orElse (errorMessage field) "Please enter a valid number")
  | select =>
      validateSelect value (options field)
        (orElse (errorMessage field) "Please select a valid option")
  | _ => None
  end.

(** [!value || String(value).trim() === ''] *)
Definition isEmptyValue (value : jsval) : bool :=
  falsy value || String.eqb (trim (ToString value)) "".

(** [bound && cmp]: a bound that is [null] or [0] is falsy and the
    comparison is not evaluated. *)
Definition boundSet (bound : option Z) : option Z :=
  match bound with
  | Some n => if n =? 0 then None else Some n
  | None => None
  end.

Definition jsLength (s : string) : Z := Z.of_nat (String.length s).

(** How one iteration of the loop over the schema ends: with an entry in
    [errors], with nothing ([continue] on an empty optional value), or
    with an entry in [validatedFields]. *)
Inductive verdict : Type :=
| Rejected (message : string)
| Skipped
| Accepted (value : jsval).

Record validationResult : Type := {
  isValid : bool;
  errors : gmap string string;
  validatedFields : gmap string jsval
}.

Section Engine.

(** [new RegExp(p)] for a pattern taken from the schema: [None] when
    the constructor throws a [SyntaxError], otherwise the [test] method
    of the expression. *)
Variable RegExp : string -> option (string -> bool).

(** The pattern block of the loop, with its [try]/[catch]: [Some msg]
    when the block ends in [continue] with an error. *)
Definition patternCheck (field : FieldDefinition) (stringValue : string) : option string :=
  match pattern (validation field) with
  | Some p =>
      if String.eqb p "" then None
      else
        match RegExp p with
        | Some test =>
            if negb (test stringValue)
            then Some (orElse (errorMessage field) (label field ++ " format is invalid"))
            else None
        | None => None
        end
  | None => None
  end.

(** [minLength && stringValue.length < minLength] and its message. *)
Definition minLengthCheck (field : FieldDefinition) (stringValue : string) : option string :=
  match boundSet (minLength (validation field)) with
  | Some n =>
      if jsLength stringValue <? n
      then Some (label field ++ " must be at least " ++ string_of_Z n ++ " characters")
      else None
  | None => None
  end.

(** [maxLength && stringValue.length > maxLength] and its message. *)
Definition maxLengthCheck (field : FieldDefinition) (stringValue : string) : option string :=
  match boundSet (maxLength (validation field)) with
  | Some n =>
      if n <? jsLength stringValue
      then Some (label field ++ " must not exceed " ++ string_of_Z n ++ " characters")
      else None
  | None => None
  end.

(** The body of [for (const field of schemaFields)]. *)
Definition checkField (field : FieldDefinition) (value : jsval) : verdict :=
  if required (validation field) && isEmptyValue value then
    Rejected (orElse (errorMessage field) (label field ++ " is required"))
  else if isEmptyValue value then Skipped
  else
    let stringValue := ToString value in
    match minLengthCheck field stringValue with
    | Some message => Rejected message
    | None =>
    match maxLengthCheck field stringValue with
    | Some message => Rejected message
    | None =>
    match patternCheck field stringValue with
    | Some message => Rejected message
    | None =>
    match validateByType field stringValue with
    | Some typeValidationError => Rejected typeValidationError
    | None => Accepted value
    end end end end.

(** The two dictionaries the loop fills. *)
Definition loopState : Type := gmap string string * gmap string jsval.

Definition loopStep (submittedData : gmap string jsval) (st : loopState)
    (field : FieldDefinition) : loopState :=
  match checkField field (getProp submittedData (id field)) with
  | Rejected message => (<[id field := message]> st.1, st.2)
  | Skipped => st
  | Accepted value => (st.1, <[id field := value]> st.2)
  end.

Definition validateFields (schemaFields : list FieldDefinition)
    (submittedData : gmap string jsval) : validationResult :=
  let st := fold_left (loopStep submittedData) schemaFields (∅, ∅) in
  {| isValid := bool_decide (size st.1 = 0%nat);
     errors := st.1;
     validatedFields := st.2 |}.

End Engine.

(** ** Exceptions

    A computation that can [throw] returns an [outcome]; the message of
    the error is kept because the handlers send it back. *)

Inductive outcome (A : Type) : Type :=
| Returned (a : A)
| Thrown (error : string).

Arguments Returned {A} a.
Arguments Thrown {A} error.

#[global] Instance outcome_bind : MBind outcome := fun A B k m =>
  match m with
  | Returned a => k a
  | Thrown e => Thrown e
  end.

#[global] Instance outcome_ret : MRet outcome := @Returned.

(** A loop whose body can throw: the first exception leaves the loop. *)
Fixpoint forEach {A S : Type} (body : S -> A -> outcome S) (l : list A) (st : S)
    : outcome S :=
  match l with
  | [] => Returned st
  | a :: l' => body st a ≫= forEach body l'
  end.

(** ** The shared store: the [FieldSchema] collection

    A collection is the list of its documents.  The [tenantId] path has
    [trim: true], a setter Mongoose runs on documents and on the values
    of a query filter alike. *)

Definition findOne (collection : list FieldSchema) (tenantId : string)
    : option FieldSchema :=
  find (fun doc => String.eqb (schema_tenantId doc) (trim tenantId)) collection.

(** ** The registration route with inline validation
    (the first [routes/registrationRoutes.js]) *)

Inductive registerResponse : Type :=
| RegNotFound (message : string)                          (* 404 *)
| RegInvalid (errors : gmap string string)                (* 400 *)
| RegCreated (tenantId : string) (fields : gmap string jsval) (* 201 *)
| RegError (message error : string).                      (* 500 *)

Definition registerStatus (r : registerResponse) : Z :=
  match r with
  | RegNotFound _ => 404
  | RegInvalid _ => 400
  | RegCreated _ _ => 201
  | RegError _ _ => 500
  end.

Section InlineRoute.

Variable RegExp : string -> option (string -> bool).

(** [!value || value.trim() === '']: a truthy value that is not a
    string has no [trim] method. *)
Definition inlineIsEmpty (value : jsval) : outcome bool :=
  if falsy value then Returned true
  else
    match value with
    | JStr s => Returned (String.eqb (trim s) "")
    | _ => Thrown "value.trim is not a function"
    end.

(** The pattern block of the inline loop: [new RegExp] is not guarded.
    The error carries the engine's message, kept here up to its detail. *)
Definition inlinePatternCheck (field : FieldDefinition) (value : string)
    : outcome (option string) :=
  match pattern (validation field) with
  | Some p =>
      if String.eqb p "" then Returned None
      else
        match RegExp p with
        | Some test =>
            if negb (test value)
            then Returned (Some (orElse (errorMessage field) (label field ++ " format is invalid")))
            else Returned None
        | None => Thrown ("Invalid regular expression: /" ++ p ++ "/")
        end
  | None => Returned None
  end.

Definition inlineTypeCheck (field : FieldDefinition) (value : string) : option string :=
  match type field with
  | email =>
      if negb (fullMatch emailRegex value)
      then Some (orElse (errorMessage field) "Please enter a valid email address")
      else None
  | phone =>
      if negb (fullMatch phoneRegex (filterString (fun c => negb (phoneFormatting c)) value))
      then Some (orElse (errorMessage field) "Please enter a valid phone number")
      else None
  | _ => None
  end.

(** The body of the inline loop. *)
Definition inlineCheckField (field : FieldDefinition) (value : jsval) : outcome verdict :=
  (if required (validation field) then inlineIsEmpty value else Returned false) ≫= fun empty1 : bool =>
  if empty1 then
    Returned (Rejected (orElse (errorMessage field) (label field ++ " is required")))
  else
    inlineIsEmpty value ≫= fun empty2 : bool =>
    if empty2 then Returned Skipped
    else
      match value with
      | JStr s =>
          match minLengthCheck field s with
          | Some message => Returned (Rejected message)
          | None =>
          match maxLengthCheck field s with
          | Some message => Returned (Rejected message)
          | None =>
          inlinePatternCheck field s ≫= fun failed : option string =>
          match failed with
          | Some message => Returned (Rejected message)
          | None =>
          match inlineTypeCheck field s with
          | Some message => Returned (Rejected message)
          | None => Returned (Accepted value)
          end end end end
      | _ => Thrown "value.trim is not a function"
      end.

Definition inlineStep (submittedData : gmap string jsval) (st : loopState)
    (field : FieldDefinition) : outcome loopState :=
  inlineCheckField field (getProp submittedData (id field)) ≫= fun v : verdict =>
  Returned
    match v with
    | Rejected message => (<[id field := message]> st.1, st.2)
    | Skipped => st
    | Accepted value => (st.1, <[id field := value]> st.2)
    end.

(** [router.post('/:tenantId')], inline version.  [saveError] is what
    [newUser.save()] rejects with, if it does. *)
Definition registerInline (schemas : list FieldSchema) (saveError : option string)
    (tenantId : string) (submittedData : gmap string jsval) : registerResponse :=
  match findOne schemas tenantId with
  | None => RegNotFound ("No field schema found for tenant: " ++ tenantId)
  | Some schema =>
      match forEach (inlineStep submittedData) (fields schema) (∅, ∅) with
      | Thrown e => RegError "Error processing registration" e
      | Returned st =>
          if negb (size st.1 =? 0)%nat then RegInvalid st.1
          else
            match saveError with
            | Some e => RegError "Error processing registration" e
            | None => RegCreated tenantId st.2
            end
      end
  end.

End InlineRoute.

(** ** The tenant connection manager ([utils/tenantConnection.js]) *)

(** [tenantId.toLowerCase().replace(/[^a-z0-9]/g, '')] *)
Definition normalize (tenantId : string) : string :=
  filterString (fun c => isLower c || isDigit c) (toLowerCase tenantId).

(** [`tenant_${normalizedTenantId}`] *)
Definition tenantDbName (normalizedTenantId : string) : string :=
  "tenant_" ++ normalizedTenantId.

Fixpoint hasSlash (s : string) : bool :=
  match s with
  | String c s' => Ascii.eqb c "/" || hasSlash s'
  | EmptyString => false
  end.

(** [baseUri.split('/').slice(0, -1).join('/')]: what precedes the last
    slash, and nothing when there is no slash. *)
Fixpoint withoutLastSegment (s : string) : string :=
  match s with
  | String c s' => if hasSlash s' then String c (withoutLastSegment s') else EmptyString
  | EmptyString => EmptyString
  end.

(** A Mongoose connection: where it points, and its [readyState]
    (0 disconnected, 1 connected, 2 connecting). *)
Record Connection : Type := {
  uri : string;
  readyState : Z
}.

(** The module state: the connection objects created so far, by
    identity, and the cache [tenantConnections].  [created] counts the
    calls of [mongoose.createConnection]; it is also the next identity. *)
Record ConnState : Type := {
  heap : gmap nat Connection;
  tenantConnections : gmap string nat;
  created : nat
}.

Definition noConnections : ConnState :=
  {| heap := ∅; tenantConnections := ∅; created := 0 |}.

(** How the promise on the [open] and [error] events settles. *)
Inductive openEvent : Type :=
| Open
| Error (message : string).

(** Where a call stands at its [await]. *)
Inductive started : Type :=
| Hit (conn : nat)
| Opening (normalizedTenantId : string) (conn : nat).

Definition setReadyState (c : nat) (rs : Z) (h : gmap nat Connection)
    : gmap nat Connection :=
  match h !! c with
  | Some conn => <[c := {| uri := uri conn; readyState := rs |}]> h
  | None => h
  end.

Section ConnectionManager.

(** [process.env.MONGODB_URI], which the deployment sets. *)
Variable MONGODB_URI : string.

Definition tenantUri (normalizedTenantId : string) : string :=
  withoutLastSegment MONGODB_URI ++ "/" ++ tenantDbName normalizedTenantId.

(** The cached connection, when there is one and it is connected. *)
Definition cachedLive (σ : ConnState) (normalizedTenantId : string) : option nat :=
  match tenantConnections σ !! normalizedTenantId with
  | Some c =>
      match heap σ !! c with
      | Some conn => if readyState conn =? 1 then Some c else None
      | None => None
      end
  | None => None
  end.

(** [getTenantConnection] up to its [await]: a cache hit returns at
    once, a miss creates a connection and waits for it. *)
Definition beginGetTenantConnection (σ : ConnState) (tenantId : string)
    : started * ConnState :=
  let normalizedTenantId := normalize tenantId in
  match cachedLive σ normalizedTenantId with
  | Some c => (Hit c, σ)
  | None =>
      let c := created σ in
      (Opening normalizedTenantId c,
       {| heap := <[c := {| uri := tenantUri normalizedTenantId; readyState := 2 |}]> (heap σ);
          tenantConnections := tenantConnections σ;
          created := S c |})
  end.

(** [getTenantConnection] after its [await]: on [open] the connection
    (now connected) is cached and returned; on [error] the [catch]
    rethrows and the cache is not written. *)
Definition endGetTenantConnection (σ : ConnState) (normalizedTenantId : string)
    (c : nat) (ev : openEvent) : outcome nat * ConnState :=
  match ev with
  | Open =>
      (Returned c,
       {| heap := setReadyState c 1 (heap σ);
          tenantConnections := <[normalizedTenantId := c]> (tenantConnections σ);
          created := created σ |})
  | Error message =>
      (Thrown ("Failed to connect to tenant database: " ++ message),
       {| heap := setReadyState c 0 (heap σ);
          tenantConnections := tenantConnections σ;
          created := created σ |})
  end.

(** One call of [getTenantConnection] run to completion; [ev] is how
    the open attempt ends if one is made. *)
Definition getTenantConnection (σ : ConnState) (tenantId : string) (ev : openEvent)
    : outcome nat * ConnState :=
  match beginGetTenantConnection σ tenantId with
  | (Hit c, σ') => (Returned c, σ')
  | (Opening k c, σ') => endGetTenantConnection σ' k c ev
  end.

(** *** Several calls in flight

    Requests are served on one thread: a call runs until its [await]
    and resumes when its connection settles; other calls run in
    between. *)

Inductive action : Type :=
| Call (caller : nat) (tenantId : string)
| Settle (caller : nat) (ev : openEvent)
| Lost (conn : nat).

Record system : Type := {
  state : ConnState;
  waiting : gmap nat (string * nat);
  results : gmap nat (string * outcome nat)
}.

Definition idle (σ : ConnState) : system :=
  {| state := σ; waiting := ∅; results := ∅ |}.

Definition act (s : system) (a : action) : system :=
  match a with
  | Call caller tenantId =>
      match beginGetTenantConnection (state s) tenantId with
      | (Hit c, σ') =>
          {| state := σ'; waiting := waiting s;
             results := <[caller := (normalize tenantId, Returned c)]> (results s) |}
      | (Opening k c, σ') =>
          {| state := σ'; waiting := <[caller := (k, c)]> (waiting s);
             results := results s |}
      end
  | Settle caller ev =>
      match waiting s !! caller with
      | Some (k, c) =>
          let '(r, σ') := endGetTenantConnection (state s) k c ev in
          {| state := σ'; waiting := delete caller (waiting s);
             results := <[caller := (k, r)]> (results s) |}
      | None => s
      end
  | Lost c =>
      {| state := {| heap := setReadyState c 0 (heap (state s));
                     tenantConnections := tenantConnections (state s);
                     created := created (state s) |};
         waiting := waiting s; results := results s |}
  end.

Definition run (s : system) (schedule : list action) : system :=
  fold_left act schedule s.

End ConnectionManager.

(** ** Tenant databases and the model factory ([models/DynamicUser.js]) *)

(** A document of the [registeredusers] collection.  [createdAt] is the
    timestamp Mongoose assigns when the document is saved. *)
Record RegisteredUser : Type := {
  user_id : string;
  user_tenantId : string;
  user_fields : gmap string jsval;
  createdAt : Z
}.

(** The process and the server: the connection manager, the cache
    [tenantUserModels] (a model is identified by the connection it was
    compiled on) and the content of each tenant database, by URI. *)
Record World : Type := {
  conns : ConnState;
  tenantUserModels : gmap string nat;
  databases : gmap string (list RegisteredUser)
}.

(** [createdAt: -1]: [newerFirst a b] when [a] may come before [b]. *)
Definition newerFirst (a b : RegisteredUser) : Prop := createdAt b ≤ createdAt a.

#[global] Instance newerFirst_dec : RelDecision newerFirst.
Proof. intros a b. unfold newerFirst. apply _. Defined.

(** [Math.ceil(totalUsers / limit)] *)
Inductive jsnumber : Type :=
| NaN
| Fin (n : Z)
| Infinity.

Definition ceilDiv (total : Z) (limit : option Z) : jsnumber :=
  match limit with
  | None => NaN
  | Some l =>
      if l =? 0 then (if total =? 0 then NaN else Infinity)
      else Fin (- ((- total) / l))
  end.

Record pagination : Type := {
  currentPage : option Z;
  totalPages : jsnumber;
  totalUsers : Z;
  limit : option Z
}.

Inductive listResponse : Type :=
| ListOk (users : list RegisteredUser) (info : pagination)   (* 200 *)
| ListError (message error : string).                        (* 500 *)

Inductive userResponse : Type :=
| UserOk (user : RegisteredUser)                             (* 200 *)
| UserNotFound (message : string)                            (* 404 *)
| UserError (message error : string).                        (* 500 *)

(** What a variable of a handler holds after [getUserModel(...)]: the
    model when the call is awaited, the pending promise when it is not. *)
Inductive modelRef : Type :=
| TheModel (m : nat)
| ThePromise.

(** [const { page = 1, limit = 10 } = req.query]: the default replaces a
    parameter that is [undefined], and no other. *)
Definition pageParam (query : gmap string jsval) : jsval :=
  match getProp query "page" with
  | JUndefined => JNum 1
  | v => v
  end.

Definition limitParam (query : gmap string jsval) : jsval :=
  match getProp query "limit" with
  | JUndefined => JNum 10
  | v => v
  end.

(** [(parseInt(page) - 1) * parseInt(limit)]; [None] is [NaN]. *)
Definition skipOf (page limit : jsval) : option Z :=
  match parseInt page, parseInt limit with
  | Some p, Some l => Some ((p - 1) * l)
  | _, _ => None
  end.

Definition paginationOf (query : gmap string jsval) (totalUsers : Z) : pagination :=
  {| currentPage := parseInt (pageParam query);
     totalPages := ceilDiv totalUsers (parseInt (limitParam query));
     totalUsers := totalUsers;
     limit := parseInt (limitParam query) |}.

(** A 24-digit hexadecimal string casts to an [ObjectId]. *)
Definition isObjectId (s : string) : bool :=
  Nat.eqb (String.length s) 24 && allString isHexDigit s.

Section Routes.

Variable MONGODB_URI : string.
Variable RegExp : string -> option (string -> bool).

(** What the driver and the server answer to a query whose [skip] is
    [NaN] or negative, or whose [limit] is [NaN] or below 1; the route
    does not guard against these. *)
Variable irregularQuery :
  option Z -> option Z -> list RegisteredUser -> outcome (list RegisteredUser).

(** [getUserModel], awaited. *)
Definition getUserModel (w : World) (tenantId : string) (ev : openEvent)
    : outcome nat * World :=
  let normalizedTenantId := normalize tenantId in
  match tenantUserModels w !! normalizedTenantId with
  | Some m => (Returned m, w)
  | None =>
      match getTenantConnection MONGODB_URI (conns w) tenantId ev with
      | (Returned c, σ') =>
          (Returned c,
           {| conns := σ';
              tenantUserModels := <[normalizedTenantId := c]> (tenantUserModels w);
              databases := databases w |})
      | (Thrown e, σ') =>
          (Thrown e,
           {| conns := σ';
              tenantUserModels := tenantUserModels w;
              databases := databases w |})
      end
  end.

(** [getUserModel] called and not awaited: the caller gets the promise;
    the body has run up to its first [await]. *)
Definition getUserModelNoAwait (w : World) (tenantId : string) : modelRef * World :=
  match tenantUserModels w !! normalize tenantId with
  | Some m => (ThePromise, w)
  | None =>
      (ThePromise,
       {| conns := (beginGetTenantConnection MONGODB_URI (conns w) tenantId).2;
          tenantUserModels := tenantUserModels w;
          databases := databases w |})
  end.

(** The documents a model reads and writes. *)
Definition collectionOf (w : World) (m : nat) : list RegisteredUser :=
  match heap (conns w) !! m with
  | Some conn => default [] (databases w !! uri conn)
  | None => []
  end.

Definition matching (tenantId : string) (docs : list RegisteredUser)
    : list RegisteredUser :=
  List.filter (fun u => String.eqb (user_tenantId u) (trim tenantId)) docs.

(** [UserModel.find({ tenantId }).skip(skip).limit(limit).sort({ createdAt: -1 })]:
    the options of a query apply in the order sort, skip, limit. *)
Definition findPage (docs : list RegisteredUser) (tenantId : string)
    (skip limit : option Z) : outcome (list RegisteredUser) :=
  let sorted := merge_sort newerFirst (matching tenantId docs) in
  match skip, limit with
  | Some s, Some l =>
      if (0 <=? s) && (1 <=? l)
      then Returned (take (Z.to_nat l) (drop (Z.to_nat s) sorted))
      else irregularQuery skip limit sorted
  | _, _ => irregularQuery skip limit sorted
  end.

Definition countDocuments (docs : list RegisteredUser) (tenantId : string) : Z :=
  Z.of_nat (length (matching tenantId docs)).

(** [router.get('/:tenantId/users')] *)
Definition listUsers (w : World) (ev : openEvent) (tenantId : string)
    (query : gmap string jsval) : listResponse * World :=
  let page := pageParam query in
  let limit := limitParam query in
  match getUserModel w tenantId ev with
  | (Thrown e, w') => (ListError "Error fetching registered users" e, w')
  | (Returned m, w') =>
      let skip := skipOf page limit in
      match findPage (collectionOf w' m) tenantId skip (parseInt limit) with
      | Thrown e => (ListError "Error fetching registered users" e, w')
      | Returned users =>
          let totalUsers := countDocuments (collectionOf w' m) tenantId in
          (ListOk users (paginationOf query totalUsers), w')
      end
  end.

(** [UserModel.findById(userId)]: a promise has no such method. *)
Definition findById (w : World) (UserModel : modelRef) (userId : string)
    : outcome (option RegisteredUser) :=
  match UserModel with
  | ThePromise => Thrown "UserModel.findById is not a function"
  | TheModel m =>
      if isObjectId userId
      then Returned (find (fun u => String.eqb (user_id u) (toLowerCase userId))
                          (collectionOf w m))
      else Thrown "Cast to ObjectId failed"
  end.

(** [router.get('/:tenantId/users/:userId')]: [getUserModel] is called
    without [await]. *)
Definition getUser (w : World) (tenantId userId : string) : userResponse * World :=
  let '(UserModel, w') := getUserModelNoAwait w tenantId in
  match findById w' UserModel userId with
  | Thrown e => (UserError "Error fetching user" e, w')
  | Returned None => (UserNotFound "User not found", w')
  | Returned (Some user) => (UserOk user, w')
  end.

(** [newUser.save()] on a model: [tenantId] is required and trimmed;
    the driver supplies the identifier and Mongoose the timestamp. *)
Definition save (w : World) (m : nat) (newId : string) (now : Z)
    (tenantId : string) (fields : gmap string jsval) : outcome RegisteredUser * World :=
  if String.eqb (trim tenantId) "" then
    (Thrown "RegisteredUser validation failed: tenantId: Path `tenantId` is required.", w)
  else
    match heap (conns w) !! m with
    | Some conn =>
        let doc := {| user_id := newId; user_tenantId := trim tenantId;
                      user_fields := fields; createdAt := now |} in
        (Returned doc,
         {| conns := conns w;
            tenantUserModels := tenantUserModels w;
            databases :=
              <[uri conn := (default [] (databases w !! uri conn) ++ [doc])%list]>
                (databases w) |})
    | None => (Thrown "no connection", w)
    end.

(** [router.post('/:tenantId')], with the shared validator and the
    tenant database. *)
Definition register (schemas : list FieldSchema) (w : World) (ev : openEvent)
    (newId : string) (now : Z) (tenantId : string) (submittedData : gmap string jsval)
    : registerResponse * World :=
  match findOne schemas tenantId with
  | None => (RegNotFound ("No field schema found for tenant: " ++ tenantId), w)
  | Some schema =>
      let validation := validateFields RegExp (fields schema) submittedData in
      if negb (isValid validation) then (RegInvalid (errors validation), w)
      else
        match getUserModel w tenantId ev with
        | (Thrown e, w') => (RegError "Error processing registration" e, w')
        | (Returned UserModel, w') =>
            match save w' UserModel newId now tenantId (validatedFields validation) with
            | (Thrown e, w'') => (RegError "Error processing registration" e, w'')
            | (Returned newUser, w'') =>
                (RegCreated (user_tenantId newUser) (user_fields newUser), w'')
            end
        end
  end.

End Routes.

(** ** The admin route that updates a schema ([routes/adminRoutes.js]) *)

Inductive adminResponse : Type :=
| AdminBadRequest (message : string)                      (* 400 *)
| AdminNotFound (message : string)                        (* 404 *)
| AdminOk (message : string) (data : FieldSchema)         (* 200 *)
| AdminError (message error : string).                    (* 500 *)

(** [findOneAndUpdate({ tenantId }, { fields }, { new: true })] on the
    collection: the first matching document gets the new [fields] and is
    returned as updated; [None] when no document matches. *)
Fixpoint findOneAndUpdate (collection : list FieldSchema) (tenantId : string)
    (newFields : list FieldDefinition) : option FieldSchema * list FieldSchema :=
  match collection with
  | [] => (None, [])
  | doc :: rest =>
      if String.eqb (schema_tenantId doc) (trim tenantId) then
        let updated := {| schema_tenantId := schema_tenantId doc; fields := newFields |} in
        (Some updated, updated :: rest)
      else
        let '(r, rest') := findOneAndUpdate rest tenantId newFields in
        (r, doc :: rest')
  end.

Section AdminRoutes.

(** [runValidators: true]: the error Mongoose's update validators raise
    on the submitted field definitions, if any. *)
Variable updateValidators : list FieldDefinition -> option string.

(** [router.put('/schemas/:tenantId')].  [body_fields] is [None] when
    the body has no [fields] or [fields] is not an array. *)
Definition updateSchema (collection : list FieldSchema) (tenantId : string)
    (body_fields : option (list FieldDefinition)) : adminResponse * list FieldSchema :=
  match body_fields with
  | None => (AdminBadRequest "fields array is required", collection)
  | Some newFields =>
      match updateValidators newFields with
      | Some e => (AdminError "Error updating schema" e, collection)
      | None =>
          match findOneAndUpdate collection tenantId newFields with
          | (None, _) =>
              (AdminNotFound ("Schema not found for tenant: " ++ tenantId), collection)
          | (Some updatedSchema, collection') =>
              (AdminOk "Field schema updated successfully" updatedSchema, collection')
          end
      end
  end.

End AdminRoutes.

(** ** Schemas rewritten, for comparing two runs of the validator *)

Definition withValidation (v : validationRules) (f : FieldDefinition) : FieldDefinition :=
  {| id := id f; label := label f; type := type f; options := options f;
     validation := v; errorMessage := errorMessage f |}.

Definition withPattern (p : option string) (f : FieldDefinition) : FieldDefinition :=
  withValidation
    {| required := required (validation f); minLength := minLength (validation f);
       maxLength := maxLength (validation f); pattern := p |} f.

Definition withMinLength (n : option Z) (f : FieldDefinition) : FieldDefinition :=
  withValidation
    {| required := required (validation f); minLength := n;
       maxLength := maxLength (validation f); pattern := pattern (validation f) |} f.

Definition withMaxLength (n : option Z) (f : FieldDefinition) : FieldDefinition :=
  withValidation
    {| required := required (validation f); minLength := minLength (validation f);
       maxLength := n; pattern := pattern (validation f) |} f.

(** The field without its pattern when the pattern does not compile. *)
Definition withoutBadPattern (RegExp : string -> option (string -> bool))
    (f : FieldDefinition) : FieldDefinition :=
  match pattern (validation f) with
  | Some p =>
      match RegExp p with
      | None => withPattern None f
      | Some _ => f
      end
  | None => f
  end.

(** The field with its length bounds that are [0] replaced by [null]. *)
Definition withoutZeroBounds (f : FieldDefinition) : FieldDefinition :=
  withMinLength (boundSet (minLength (validation f)))
    (withMaxLength (boundSet (maxLength (validation f))) f).

(** ** The rules in the order of the specification

    A second reading of the loop body, following the text: the required
    rule first, then the first failure among minLength, maxLength,
    pattern and the type-specific rule. *)

Fixpoint firstFailure (rules : list (FieldDefinition -> string -> option string))
    (field : FieldDefinition) (stringValue : string) : option string :=
  match rules with
  | [] => None
  | rule :: rules' =>
      match rule field stringValue with
      | Some message => Some message
      | None => firstFailure rules' field stringValue
      end
  end.

Definition orderedRules (RegExp : string -> option (string -> bool))
    : list (FieldDefinition -> string -> option string) :=
  [minLengthCheck; maxLengthCheck; patternCheck RegExp; validateByType].

Definition checkFieldOrdered (RegExp : string -> option (string -> bool))
    (field : FieldDefinition) (value : jsval) : verdict :=
  if isEmptyValue value then
    if required (validation field)
    then Rejected (orElse (errorMessage field) (label field ++ " is required"))
    else Skipped
  else
    match firstFailure (orderedRules RegExp) field (ToString value) with
    | Some message => Rejected message
    | None => Accepted value
    end.

(** The last field of the schema with a given id that the loop rejects:
    its message is the one left in [errors]. *)
Definition rejection (RegExp : string -> option (string -> bool))
    (submittedData : gmap string jsval) (f : FieldDefinition) : option string :=
  match checkField RegExp f (getProp submittedData (id f)) with
  | Rejected message => Some message
  | _ => None
  end.

Definition accepted (RegExp : string -> option (string -> bool))
    (submittedData : gmap string jsval) (f : FieldDefinition) : bool :=
  match checkField RegExp f (getProp submittedData (id f)) with
  | Accepted _ => true
  | _ => false
  end.

(** ** A fragment of the regular-expression engine

    Two patterns, with what [new RegExp] does on them: ["("] is a syntax
    error and ["^[0-9]+$"] tests for a non-empty string of digits.  The
    fragment knows no other pattern. *)
Definition fragmentRegExp (p : string) : option (string -> bool) :=
  if String.eqb p "^[0-9]+$" then Some (fullMatch (RPlus (RClass isDigit)))
  else None.

(** ** Sample data *)

Definition plainRules (req : bool) : validationRules :=
  {| required := req; minLength := None; maxLength := None; pattern := None |}.

(** A numeric field with no error message of its own. *)
Definition ageField (req : bool) : FieldDefinition :=
  {| id := "age"; label := "Age"; type := number; options := [];
     validation := plainRules req; errorMessage := "" |}.

Definition codeField (p : string) : FieldDefinition :=
  {| id := "code"; label := "Code"; type := text; options := [];
     validation := {| required := true; minLength := None; maxLength := None;
                      pattern := Some p |};
     errorMessage := "" |}.

Definition nameField : FieldDefinition :=
  {| id := "name"; label := "Name"; type := text; options := [];
     validation := {| required := true; minLength := Some 2; maxLength := Some 50;
                      pattern := None |};
     errorMessage := "" |}.

Definition localUri : string := "mongodb://localhost:27017/dynamic-registration".

Definition emptyWorld : World :=
  {| conns := noConnections; tenantUserModels := ∅; databases := ∅ |}.

(** The [required] paths of a field definition in the [FieldSchema]
    model, as an instance of the update validators. *)
Definition requiredPaths (newFields : list FieldDefinition) : option string :=
  if forallb (fun f => negb (String.eqb (id f) "") && negb (String.eqb (label f) ""))
       newFields
  then None
  else Some "Validation failed: a field definition lacks its id or its label".

Definition xyzSchemas : list FieldSchema :=
  [{| schema_tenantId := "xyz"; fields := [nameField] |}].

(** The [n]-th identifier handed out by the driver in the samples. *)
Definition sampleId (n : nat) : string :=
  "0000000000000000000000" ++ (if (n <? 10)%nat then "0" else "") ++ string_of_Z (Z.of_nat n).

(** The world after [n] registrations for tenant [xyz], the [k]-th at
    time [k]. *)
Fixpoint registered (RegExp : string -> option (string -> bool)) (n : nat) : World :=
  match n with
  | O => emptyWorld
  | S k =>
      (register localUri RegExp xyzSchemas (registered RegExp k) Open
         (sampleId n) (Z.of_nat n) "xyz" {["name" := JStr "Jo"]}).2
  end.

(** ** Well-formed states of the connection manager

    Every cached connection exists, points to the database of its key
    and has an identity below [created]; so do the connections of the
    calls in flight and the connections already handed out. *)

Definition pointsTo (MONGODB_URI : string) (σ : ConnState) (k : string) (c : nat) : Prop :=
  (c < created σ)%nat /\
  exists conn, heap σ !! c = Some conn /\ uri conn = tenantUri MONGODB_URI k.

Definition wfConn (MONGODB_URI : string) (σ : ConnState) : Prop :=
  forall k c, tenantConnections σ !! k = Some c -> pointsTo MONGODB_URI σ k c.

Definition wfSystem (MONGODB_URI : string) (s : system) : Prop :=
  wfConn MONGODB_URI (state s) /\
  (forall caller k c, waiting s !! caller = Some (k, c) ->
     pointsTo MONGODB_URI (state s) k c) /\
  (forall caller k c, results s !! caller = Some (k, Returned c) ->
     pointsTo MONGODB_URI (state s) k c).

(** [N] callers asking for the same tenant, then their connections
    opening in some order. *)
Definition callAll (tenantId : string) (callers : list nat) : list action :=
  map (fun caller => Call caller tenantId) callers.

Definition openAll (order : list nat) : list action :=
  map (fun caller => Settle caller Open) order.


(** ** What a regular expression of the source denotes

    The words of an expression, as a relation; the matcher above is
    checked against it, and the literal expressions are read through it. *)

Inductive matches : regex -> string -> Prop :=
| matches_eps : matches REps ""
| matches_class p c : p c = true -> matches (RClass p) (String c "")
| matches_seq r1 r2 s1 s2 :
    matches r1 s1 -> matches r2 s2 -> matches (RSeq r1 r2) (s1 ++ s2)
| matches_alt_l r1 r2 s : matches r1 s -> matches (RAlt r1 r2) s
| matches_alt_r r1 r2 s : matches r2 s -> matches (RAlt r1 r2) s
| matches_star_nil r : matches (RStar r) ""
| matches_star_cons r s1 s2 :
    matches r s1 -> matches (RStar r) s2 -> matches (RStar r) (s1 ++ s2).

(** The class [[^\s@]] of the e-mail expression. *)
Definition emailChar (c : ascii) : bool := negb (isSpace c || Ascii.eqb c "@").

(** ** The submission cut down to the keys of the schema *)

Definition restrictToSchema (schemaFields : list FieldDefinition)
    (submittedData : gmap string jsval) : gmap string jsval :=
  filter (fun kv => kv.1 ∈ map id schemaFields) submittedData.

(** ** Where the inline loop and the shared validator can be compared

    The inline loop calls [trim] on the value, compiles the pattern
    outside any [try], and has no rule for [number] and [select]. *)

Definition stringOrFalsy (v : jsval) : Prop :=
  falsy v = true \/ exists s, v = JStr s.

Definition patternCompiles (RegExp : string -> option (string -> bool))
    (f : FieldDefinition) : Prop :=
  forall p, pattern (validation f) = Some p -> p <> "" -> is_Some (RegExp p).

Definition noNumberOrSelectRule (f : FieldDefinition) : Prop :=
  type f <> number /\ (type f = select -> options f = []).

(** ** The client-side check of the registration form
    ([DynamicForm.validateForm]) *)

Section ClientForm.

Variable RegExp : string -> option (string -> bool).

(** The body of [fields.forEach]: [Some message] when the field gets an
    entry in [newErrors].  The type rules come before the pattern. *)
Definition formCheck (field : FieldDefinition) (value : string) : option string :=
  if required (validation field) && String.eqb (trim value) "" then
    Some (orElse (errorMessage field) (label field ++ " is required"))
  else if String.eqb (trim value) "" then None
  else
    match minLengthCheck field value with
    | Some message => Some message
    | None =>
    match maxLengthCheck field value with
    | Some message => Some message
    | None =>
    match inlineTypeCheck field value with
    | Some message => Some message
    | None => patternCheck RegExp field value
    end end end.

(** [formData[field.id] || ''] *)
Definition formValue (formData : gmap string string) (fieldId : string) : string :=
  default "" (formData !! fieldId).

Definition formStep (formData : gmap string string) (newErrors : gmap string string)
    (field : FieldDefinition) : gmap string string :=
  match formCheck field (formValue formData (id field)) with
  | Some message => <[id field := message]> newErrors
  | None => newErrors
  end.

(** [validateForm]: the errors it sets, and its answer. *)
Definition validateForm (fields : list FieldDefinition) (formData : gmap string string)
    : gmap string string * bool :=
  let newErrors := fold_left (formStep formData) fields ∅ in
  (newErrors, bool_decide (size newErrors = 0%nat)).

End ClientForm.

(** What [axios.post(url, formData)] sends: the strings of the form. *)
Definition formBody (formData : gmap string string) : gmap string jsval :=
  JStr <$> formData.

(** ** Closing tenant connections ([utils/tenantConnection.js]) *)

Definition isConnected (h : gmap nat Connection) (c : nat) : bool :=
  match h !! c with
  | Some conn => readyState conn =? 1
  | None => false
  end.

(** [getActiveTenantConnections]: the keys of the cache whose connection
    has [readyState === 1].  The order of [Object.keys] is not modelled:
    the result is read as a set. *)
Definition getActiveTenantConnections (σ : ConnState) : list string :=
  (filter (fun kc => isConnected (heap σ) kc.2 = true)
     (map_to_list (tenantConnections σ))).*1.

Section ConnectionClose.

(** [connection.close()]: the error it rejects with, if it does.  A
    close that succeeds leaves the connection disconnected; one that
    rejects is taken to leave it as it was. *)
Variable closeError : nat -> option string.

(** [closeTenantConnection]: the cached connection is closed and then
    removed from the cache; a rejected [close] leaves the [delete]
    undone. *)
Definition closeTenantConnection (σ : ConnState) (tenantId : string)
    : outcome unit * ConnState :=
  let normalizedTenantId := normalize tenantId in
  match tenantConnections σ !! normalizedTenantId with
  | Some c =>
      match closeError c with
      | Some e => (Thrown e, σ)
      | None =>
          (Returned (),
           {| heap := setReadyState c 0 (heap σ);
              tenantConnections := delete normalizedTenantId (tenantConnections σ);
              created := created σ |})
      end
  | None => (Returned (), σ)
  end.

(** The [try]/[catch] around one [close] of [closeAllTenantConnections]. *)
Definition closeQuietly (h : gmap nat Connection) (entry : string * nat)
    : gmap nat Connection :=
  match closeError entry.2 with
  | None => setReadyState entry.2 0 h
  | Some _ => h
  end.

(** [closeAllTenantConnections]: every cached connection is closed,
    errors are logged and dropped, and the cache is cleared. *)
Definition closeAllTenantConnections (σ : ConnState) : ConnState :=
  {| heap := fold_left closeQuietly (map_to_list (tenantConnections σ)) (heap σ);
     tenantConnections := ∅;
     created := created σ |}.

End ConnectionClose.

Definition disconnected (conn : Connection) : Connection :=
  {| uri := uri conn; readyState := 0 |}.

(** The world with another state of the connection manager. *)
Definition withConns (w : World) (σ : ConnState) : World :=
  {| conns := σ; tenantUserModels := tenantUserModels w; databases := databases w |}.

(** Calls made one after another: each settles before the next starts. *)
Definition oneAfterAnother (tenantId : string) (callers : list nat) : list action :=
  flat_map (fun caller => [Call caller tenantId; Settle caller Open]) callers.

Definition isCall (a : action) : bool :=
  match a with
  | Call _ _ => true
  | _ => false
  end.

(** ** The rest of the schema registry ([routes/adminRoutes.js],
    [routes/fieldRoutes.js], [models/Tenant.js]) *)

Record Tenant : Type := {
  tenant_tenantId : string;
  tenant_name : string;
  tenant_description : string;
  tenant_isActive : bool
}.

(** A reply of the registry: a document with its status and message,
    a message alone, or the 500 of a [catch]. *)
Inductive schemaReply : Type :=
| SchemaData (status : Z) (message : option string) (data : FieldSchema)
| SchemaMessage (status : Z) (message : string)
| SchemaFailure (message error : string).

Inductive tenantReply : Type :=
| TenantData (status : Z) (message : string) (data : Tenant)
| TenantMessage (status : Z) (message : string)
| TenantFailure (message error : string).

Definition hasTenantId (tenantId : string) (doc : FieldSchema) : bool :=
  String.eqb (schema_tenantId doc) (trim tenantId).

(** [newSchema.save()]: the document is validated (a [tenantId] that is
    empty once trimmed and a field without [id] or [label] fail the
    [required] validators), the unique index on [tenantId] refuses a
    second document for a tenant, and the document is stored with its
    [tenantId] trimmed.  [newFields] are the field definitions as the
    schema casts them, the defaults of the paths that were left out
    filled in. *)
Definition saveSchema (collection : list FieldSchema) (tenantId : string)
    (newFields : list FieldDefinition) : outcome FieldSchema * list FieldSchema :=
  if String.eqb (trim tenantId) "" then
    (Thrown "FieldSchema validation failed: tenantId: Path `tenantId` is required.",
     collection)
  else
    match requiredPaths newFields with
    | Some e => (Thrown e, collection)
    | None =>
        if existsb (hasTenantId tenantId) collection then
          (Thrown "E11000 duplicate key error collection: fieldschemas index: tenantId_1",
           collection)
        else
          let doc := {| schema_tenantId := trim tenantId; fields := newFields |} in
          (Returned doc, (collection ++ [doc])%list)
    end.

(** [router.post('/schemas')].  [body_tenantId] is [""] when the body
    has no [tenantId]; [body_fields] is [None] when it has no array of
    fields. *)
Definition createSchema (collection : list FieldSchema) (body_tenantId : string)
    (body_fields : option (list FieldDefinition)) : schemaReply * list FieldSchema :=
  if String.eqb body_tenantId "" then
    (SchemaMessage 400 "tenantId and fields array are required", collection)
  else
    match body_fields with
    | None => (SchemaMessage 400 "tenantId and fields array are required", collection)
    | Some newFields =>
        match findOne collection body_tenantId with
        | Some _ =>
            (SchemaMessage 400
               ("Schema already exists for tenant: " ++ body_tenantId ++ ". Use PUT to update."),
             collection)
        | None =>
            match saveSchema collection body_tenantId newFields with
            | (Thrown e, collection') =>
                (SchemaFailure "Error creating schema" e, collection')
            | (Returned newSchema, collection') =>
                (SchemaData 201 (Some "Field schema created successfully") newSchema,
                 collection')
            end
        end
    end.

(** [findOneAndDelete({ tenantId })]: the first matching document is
    removed and returned. *)
Fixpoint findOneAndDelete (collection : list FieldSchema) (tenantId : string)
    : option FieldSchema * list FieldSchema :=
  match collection with
  | [] => (None, [])
  | doc :: rest =>
      if hasTenantId tenantId doc then (Some doc, rest)
      else
        let '(r, rest') := findOneAndDelete rest tenantId in
        (r, doc :: rest')
  end.

(** [router.delete('/schemas/:tenantId')] *)
Definition deleteSchema (collection : list FieldSchema) (tenantId : string)
    : schemaReply * list FieldSchema :=
  match findOneAndDelete collection tenantId with
  | (None, _) => (SchemaMessage 404 ("Schema not found for tenant: " ++ tenantId), collection)
  | (Some _, collection') =>
      (SchemaMessage 200 "Field schema deleted successfully", collection')
  end.

(** [router.get('/:tenantId')] of the field routes: what the form loads. *)
Definition getFields (collection : list FieldSchema) (tenantId : string) : schemaReply :=
  match findOne collection tenantId with
  | None => SchemaMessage 404 ("No field schema found for tenant: " ++ tenantId)
  | Some schema =>
      SchemaData 200 None {| schema_tenantId := schema_tenantId schema;
                             fields := fields schema |}
  end.

(** [newTenant.save()]: [tenantId] and [name] are required, [tenantId]
    is trimmed and unique; [description] defaults to [''] and
    [isActive] to [true]. *)
Definition saveTenant (tenants : list Tenant) (tenantId name description : string)
    : outcome Tenant * list Tenant :=
  if String.eqb (trim tenantId) "" then
    (Thrown "Tenant validation failed: tenantId: Path `tenantId` is required.", tenants)
  else if String.eqb name "" then
    (Thrown "Tenant validation failed: name: Path `name` is required.", tenants)
  else if existsb (fun t => String.eqb (tenant_tenantId t) (trim tenantId)) tenants then
    (Thrown "E11000 duplicate key error collection: tenants index: tenantId_1", tenants)
  else
    let doc := {| tenant_tenantId := trim tenantId; tenant_name := name;
                  tenant_description := description; tenant_isActive := true |} in
    (Returned doc, (tenants ++ [doc])%list).

(** [router.post('/tenants')] *)
Definition createTenant (tenants : list Tenant) (tenantId name description : string)
    : tenantReply * list Tenant :=
  if String.eqb tenantId "" || String.eqb name "" then
    (TenantMessage 400 "tenantId and name are required", tenants)
  else
    match saveTenant tenants tenantId name description with
    | (Thrown e, tenants') => (TenantFailure "Error creating tenant" e, tenants')
    | (Returned newTenant, tenants') =>
        (TenantData 201 "Tenant created successfully" newTenant, tenants')
    end.

(** ** Seeding ([server.js], [seedInitialData]) *)

Definition seedNameField : FieldDefinition :=
  {| id := "name"; label := "Full Name"; type := text; options := [];
     validation := {| required := true; minLength := Some 2; maxLength := Some 50;
                      pattern := None |};
     errorMessage := "Please enter your full name (2-50 characters)" |}.

Definition seedEmailField : FieldDefinition :=
  {| id := "email"; label := "Email Address"; type := email; options := [];
     validation := plainRules true;
     errorMessage := "Please enter a valid email address" |}.

Definition seedPhoneField : FieldDefinition :=
  {| id := "phone"; label := "Phone Number"; type := phone; options := [];
     validation := plainRules true;
     errorMessage := "Please enter a valid phone number (10-15 digits)" |}.

(** The two stores of the shared database. *)
Definition registry : Type := list Tenant * list FieldSchema.

(** The body of the [try]: the four saves in order; the first one that
    rejects ends the seeding (the [catch] logs the error). *)
Definition seedInitialData (db : registry) : registry :=
  let '(tenants, schemas) := db in
  if (0 <? length tenants)%nat then db
  else
    match saveTenant tenants "xyz" "Project A" "First project with basic fields" with
    | (Thrown _, tenants1) => (tenants1, schemas)
    | (Returned _, tenants1) =>
    match saveTenant tenants1 "abc" "Project B" "Second project with extended fields" with
    | (Thrown _, tenants2) => (tenants2, schemas)
    | (Returned _, tenants2) =>
    match saveSchema schemas "xyz" [seedNameField; seedEmailField] with
    | (Thrown _, schemas1) => (tenants2, schemas1)
    | (Returned _, schemas1) =>
        (tenants2,
         (saveSchema schemas1 "abc" [seedNameField; seedEmailField; seedPhoneField]).2)
    end end end.

(** ** Well-formed worlds

    The connection manager is well formed and every cached model was
    compiled on a connection to the database of its key. *)
Definition wfWorld (MONGODB_URI : string) (w : World) : Prop :=
  wfConn MONGODB_URI (conns w) /\
  forall k m, tenantUserModels w !! k = Some m -> pointsTo MONGODB_URI (conns w) k m.

(** The documents of a tenant's database, by the normal form of its id. *)
Definition tenantDatabase (MONGODB_URI : string) (w : World) (normalizedTenantId : string)
    : list RegisteredUser :=
  default [] (databases w !! tenantUri MONGODB_URI normalizedTenantId).

Definition usersOf (r : listResponse) : list RegisteredUser :=
  match r with
  | ListOk users _ => users
  | ListError _ _ => []
  end.

(** * Properties *)

(** ** The validation engine *)

Section EngineFacts.

Variable RegExp : string -> option (string -> bool).
Variable submittedData : gmap string jsval.

Local Abbreviation step := (loopStep RegExp submittedData).
Local Abbreviation rejects := (rejection RegExp submittedData).
Local Abbreviation accepts := (accepted RegExp submittedData).

Lemma checkField_ordered field value :
  checkField RegExp field value = checkFieldOrdered RegExp field value.
Proof.
  unfold checkField, checkFieldOrdered, orderedRules; simpl.
  destruct (isEmptyValue value), (required (validation field)); simpl; try reflexivity;
    destruct (minLengthCheck field (ToString value)),
      (maxLengthCheck field (ToString value)),
      (patternCheck RegExp field (ToString value)),
      (validateByType field (ToString value)); reflexivity.
Qed.

Lemma loopStep_errors st f i :
  (step st f).1 !! i =
    if decide (id f = i) then
      match rejects f with Some m => Some m | None => st.1 !! i end
    else st.1 !! i.
Proof.
  unfold loopStep, rejection.
  destruct (checkField RegExp f _); simpl; case_decide; subst;
    rewrite ?lookup_insert_eq, ?lookup_insert_ne by done; reflexivity.
Qed.

Lemma loopStep_validated st f i :
  (step st f).2 !! i =
    if decide (id f = i) then
      if accepts f then Some (getProp submittedData i) else st.2 !! i
    else st.2 !! i.
Proof.
  unfold loopStep, accepted, checkField.
  destruct (required (validation f) && isEmptyValue _); simpl;
    [case_decide; reflexivity|].
  destruct (isEmptyValue _); simpl; [case_decide; reflexivity|].
  destruct (minLengthCheck f _); simpl; [case_decide; reflexivity|].
  destruct (maxLengthCheck f _); simpl; [case_decide; reflexivity|].
  destruct (patternCheck RegExp f _); simpl; [case_decide; reflexivity|].
  destruct (validateByType f _); simpl; [case_decide; reflexivity|].
  case_decide; subst; rewrite ?lookup_insert_eq, ?lookup_insert_ne by done; reflexivity.
Qed.

(** An entry of [errors] is the message of a rejected field. *)
Lemma loop_errors_sound schemaFields : forall st i m,
  (fold_left step schemaFields st).1 !! i = Some m ->
  st.1 !! i = Some m \/
  exists f, f ∈ schemaFields /\ id f = i /\ rejects f = Some m.
Proof.
  induction schemaFields as [|f l IH]; intros st i m H; simpl in H; [by left|].
  apply IH in H as [H|(g & Hg & Hid & Hr)].
  - rewrite loopStep_errors in H. case_decide.
    + destruct (rejects f) eqn:E.
      * right. exists f. split; [apply list_elem_of_here|]. by simplify_eq.
      * by left.
    + by left.
  - right. exists g. split; [by apply list_elem_of_further|done].
Qed.

(** Every rejected field leaves an entry in [errors]. *)
Lemma loop_errors_complete schemaFields : forall st i,
  (is_Some (st.1 !! i) \/
   exists f, f ∈ schemaFields /\ id f = i /\ is_Some (rejects f)) ->
  is_Some ((fold_left step schemaFields st).1 !! i).
Proof.
  induction schemaFields as [|f l IH]; intros st i H; simpl.
  - destruct H as [H|(f & Hf & _)]; [done|]. by apply elem_of_nil in Hf.
  - apply IH. destruct H as [H|(g & Hg & Hid & Hr)].
    + left. rewrite loopStep_errors. case_decide; [|done].
      destruct (rejects f); [by eexists|done].
    + apply elem_of_cons in Hg as [->|Hg].
      * left. rewrite loopStep_errors, decide_True by done.
        destruct Hr as [m ->]. by eexists.
      * right. by exists g.
Qed.

Lemma loop_validated schemaFields : forall st i v,
  (fold_left step schemaFields st).2 !! i = Some v <->
  (v = getProp submittedData i /\
     exists f, f ∈ schemaFields /\ id f = i /\ accepts f = true) \/
  (st.2 !! i = Some v /\
     ~ exists f, f ∈ schemaFields /\ id f = i /\ accepts f = true).
Proof.
  induction schemaFields as [|f l IH]; intros st i v; simpl.
  - split.
    + intros H. right. split; [done|]. intros (f & Hf & _). by apply elem_of_nil in Hf.
    + intros [(_ & f & Hf & _)|[H _]]; [by apply elem_of_nil in Hf|done].
  - rewrite IH, loopStep_validated. split.
    + intros [(-> & g & Hg & Hid & Ha)|[H Hn]].
      * left. split; [done|]. exists g. split; [by apply list_elem_of_further|done].
      * case_decide as Hi.
        -- destruct (accepts f) eqn:E.
           ++ left. split; [congruence|]. exists f. split; [apply list_elem_of_here|done].
           ++ right. split; [done|]. intros (g & Hg & Hid & Ha).
              apply elem_of_cons in Hg as [->|Hg]; [congruence|]. apply Hn. by exists g.
        -- right. split; [done|]. intros (g & Hg & Hid & Ha).
           apply elem_of_cons in Hg as [->|Hg]; [congruence|]. apply Hn. by exists g.
    + intros [(-> & g & Hg & Hid & Ha)|[H Hn]].
      * destruct (decide (Exists (fun g' => id g' = i /\ accepts g' = true) l)) as [He|Hne];
          rewrite Exists_exists in *.
        -- left. done.
        -- right. split; [|done].
           apply elem_of_cons in Hg as [->|Hg]; [|exfalso; apply Hne; by exists g].
           by rewrite decide_True, Ha.
      * right. split.
        -- case_decide as Hi; [|done]. destruct (accepts f) eqn:E; [|done].
           exfalso. apply Hn. exists f. split; [apply list_elem_of_here|done].
        -- intros (g & Hg & Hid & Ha). apply Hn. exists g.
           split; [by apply list_elem_of_further|done].
Qed.

End EngineFacts.

Lemma trim_nonspace_head c r : isSpace c = false -> trim (String c r) <> "".
Proof.
  intros Hc. unfold trim. simpl. rewrite Hc. simpl. rewrite Hc. simpl. discriminate.
Qed.

Lemma string_of_uint_head u :
  exists c r, NilZero.string_of_uint u = String c r /\ isSpace c = false.
Proof. destruct u; simpl; eauto. Qed.

Lemma string_of_Z_head n :
  exists c r, string_of_Z n = String c r /\ isSpace c = false.
Proof.
  unfold string_of_Z. destruct (Z.to_int n) as [u|u]; simpl.
  - apply string_of_uint_head.
  - eauto.
Qed.

Lemma string_of_Z_not_blank n : trim (string_of_Z n) <> "".
Proof.
  destruct (string_of_Z_head n) as (c & r & -> & Hc). by apply trim_nonspace_head.
Qed.


Lemma checkField_Accepted_inv RegExp f v v' :
  checkField RegExp f v = Accepted v' -> v' = v.
Proof.
  unfold checkField.
  destruct (required (validation f) && isEmptyValue v); [discriminate|].
  destruct (isEmptyValue v); [discriminate|].
  destruct (minLengthCheck f (ToString v)); [discriminate|].
  destruct (maxLengthCheck f (ToString v)); [discriminate|].
  destruct (patternCheck RegExp f (ToString v)); [discriminate|].
  destruct (validateByType f (ToString v)); [discriminate|].
  congruence.
Qed.

Lemma accepted_iff RegExp submittedData f :
  accepted RegExp submittedData f = true <->
  checkField RegExp f (getProp submittedData (id f)) = Accepted (getProp submittedData (id f)).
Proof.
  unfold accepted. split.
  - destruct (checkField RegExp f _) eqn:E; try discriminate.
    apply checkField_Accepted_inv in E. by subst.
  - by intros ->.
Qed.

Lemma validateFields_isValid RegExp schemaFields submittedData :
  isValid (validateFields RegExp schemaFields submittedData) = true <->
  errors (validateFields RegExp schemaFields submittedData) = ∅.
Proof.
  unfold validateFields; simpl. rewrite bool_decide_eq_true.
  apply map_size_empty_iff.
Qed.

(** The result of [validateFields], entry by entry: [isValid] says that
    [errors] is empty; [errors] has an entry exactly at the ids of the
    rejected fields, and the entry is the message of the first failing
    rule of such a field; [validatedFields] has an entry exactly at the
    ids of the accepted fields, and the entry is the submitted value. *)
Lemma validateFields_entries RegExp schemaFields submittedData :
  let r := validateFields RegExp schemaFields submittedData in
  (isValid r = true <-> errors r = ∅) /\
  (forall i, is_Some (errors r !! i) <->
     exists f m, f ∈ schemaFields /\ id f = i /\
       checkFieldOrdered RegExp f (getProp submittedData i) = Rejected m) /\
  (forall i m, errors r !! i = Some m ->
     exists f, f ∈ schemaFields /\ id f = i /\
       checkFieldOrdered RegExp f (getProp submittedData i) = Rejected m) /\
  (forall i v, validatedFields r !! i = Some v <->
     exists f, f ∈ schemaFields /\ id f = i /\
       checkFieldOrdered RegExp f (getProp submittedData i) = Accepted v).
Proof.
  simpl. split; [apply validateFields_isValid|]. unfold validateFields; simpl.
  split; [|split].
  - intros i. split.
    + intros [m Hm]. apply loop_errors_sound in Hm as [Hm|(f & Hf & Hid & Hr)].
      * simpl in Hm. by rewrite lookup_empty in Hm.
      * exists f, m. split; [done|]. split; [done|].
        rewrite <- checkField_ordered. unfold rejection in Hr. subst i.
        revert Hr. destruct (checkField RegExp f _); congruence.
    + intros (f & m & Hf & Hid & Hr). apply loop_errors_complete. right.
      exists f. split; [done|]. split; [done|]. unfold rejection.
      rewrite <- checkField_ordered in Hr. subst i. rewrite Hr. by eexists.
  - intros i m Hm. apply loop_errors_sound in Hm as [Hm|(f & Hf & Hid & Hr)].
    + simpl in Hm. by rewrite lookup_empty in Hm.
    + exists f. split; [done|]. split; [done|].
      rewrite <- checkField_ordered. unfold rejection in Hr. subst i.
      revert Hr. destruct (checkField RegExp f _); congruence.
  - intros i v. rewrite loop_validated. simpl. rewrite lookup_empty. split.
    + intros [(-> & f & Hf & Hid & Ha)|[H _]]; [|done].
      exists f. split; [done|]. split; [done|].
      rewrite <- checkField_ordered. subst i. by apply accepted_iff.
    + intros (f & Hf & Hid & Ha). left.
      rewrite <- checkField_ordered in Ha. subst i.
      pose proof (checkField_Accepted_inv _ _ _ _ Ha) as ->.
      split; [done|]. exists f. split; [done|]. split; [done|].
      by apply accepted_iff.
Qed.

(** Two schemas whose fields agree, one by one, on their id and on the
    verdict of every value give the same result. *)
Lemma validateFields_ext RegExp (g : FieldDefinition -> FieldDefinition)
    schemaFields submittedData :
  (forall f, id (g f) = id f) ->
  (forall f v, checkField RegExp (g f) v = checkField RegExp f v) ->
  validateFields RegExp (map g schemaFields) submittedData =
  validateFields RegExp schemaFields submittedData.
Proof.
  intros Hid Hck. unfold validateFields.
  assert (forall st, fold_left (loopStep RegExp submittedData) (map g schemaFields) st =
                     fold_left (loopStep RegExp submittedData) schemaFields st) as ->; [|done].
  induction schemaFields as [|f l IH]; intros st; simpl; [done|].
  rewrite IH. f_equal. unfold loopStep. by rewrite Hid, Hck.
Qed.

Lemma boundSet_idem b : boundSet (boundSet b) = boundSet b.
Proof. destruct b as [n|]; simpl; [|done]. destruct (n =? 0) eqn:E; simpl; by rewrite ?E. Qed.

Lemma checkField_withoutZeroBounds RegExp f v :
  checkField RegExp (withoutZeroBounds f) v = checkField RegExp f v.
Proof.
  unfold checkField, minLengthCheck, maxLengthCheck, patternCheck, validateByType; simpl.
  by rewrite !boundSet_idem.
Qed.

Lemma checkField_withoutBadPattern RegExp f v :
  checkField RegExp (withoutBadPattern RegExp f) v = checkField RegExp f v.
Proof.
  unfold withoutBadPattern.
  destruct (pattern (validation f)) as [p|] eqn:Hp; [|done].
  destruct (RegExp p) eqn:Hre; [done|].
  unfold checkField, patternCheck; simpl. rewrite Hp, Hre.
  by destruct (String.eqb p "").
Qed.

(** X3: A pattern that does not compile is skipped by the shared validator:
    the result is that of the schema without the pattern. *)
Lemma validateFields_bad_pattern_skipped RegExp schemaFields submittedData :
  validateFields RegExp (map (withoutBadPattern RegExp) schemaFields) submittedData =
  validateFields RegExp schemaFields submittedData.
Proof.
  apply validateFields_ext.
  - intros f. unfold withoutBadPattern.
    destruct (pattern (validation f)) as [p|]; [|done]. by destruct (RegExp p).
  - apply checkField_withoutBadPattern.
Qed.

(** C1, at a submission the validator mishandles: an optional numeric
    field submitted as the number [0].  The value is present, is not
    blank as a string, and no rule fails on it, yet [validatedFields]
    does not contain it; the string ["0"] is kept. *)
Theorem validateFields_drops_zero : forall RegExp,
  String.eqb (trim (ToString (JNum 0))) "" = false /\
  firstFailure (orderedRules RegExp) (ageField false) (ToString (JNum 0)) = None /\
  validateFields RegExp [ageField false] {["age" := JNum 0]} =
    {| isValid := true; errors := ∅; validatedFields := ∅ |} /\
  validateFields RegExp [ageField false] {["age" := JStr "0"]} =
    {| isValid := true; errors := ∅; validatedFields := {["age" := JStr "0"]} |}.
Proof. intros RegExp. repeat split; reflexivity. Qed.

(** C2, at a submission the validator mishandles: a required numeric
    field submitted as the number [0].  The value is neither missing nor
    undefined nor a blank string, yet the required check reports it; the
    string ["0"] passes. *)
Theorem required_check_rejects_zero : forall RegExp,
  getProp {["age" := JNum 0]} "age" = JNum 0 /\
  checkField RegExp (ageField true) (JNum 0) = Rejected "Age is required" /\
  validateFields RegExp [ageField true] {["age" := JNum 0]} =
    {| isValid := false; errors := {["age" := "Age is required"]}; validatedFields := ∅ |} /\
  checkField RegExp (ageField true) (JStr "0") = Accepted (JStr "0").
Proof. intros RegExp. repeat split; reflexivity. Qed.



(** C10: a length bound of [0] is treated as no bound.  The length
    checks do not fire, the verdict on every value is that of the field
    without the bound, and a whole schema validates as the schema with
    its zero bounds removed. *)
Theorem zero_length_bound_is_absent :
  forall RegExp (f : FieldDefinition) (s : string) (v : jsval)
         (schemaFields : list FieldDefinition) (submittedData : gmap string jsval),
  maxLengthCheck (withMaxLength (Some 0) f) s = None /\
  minLengthCheck (withMinLength (Some 0) f) s = None /\
  checkField RegExp (withMaxLength (Some 0) f) v = checkField RegExp (withMaxLength None f) v /\
  checkField RegExp (withMinLength (Some 0) f) v = checkField RegExp (withMinLength None f) v /\
  validateFields RegExp (map withoutZeroBounds schemaFields) submittedData =
    validateFields RegExp schemaFields submittedData.
Proof.
  intros. repeat split; try reflexivity.
  apply validateFields_ext; [done|]. apply checkField_withoutZeroBounds.
Qed.

(** Reading the required rule off the loop body: on an empty value of a
    required field the verdict is the required message, whatever the
    other rules would say. *)
Lemma required_check_on_empty RegExp f v :
  required (validation f) = true -> isEmptyValue v = true ->
  checkField RegExp f v =
    Rejected (orElse (errorMessage f) (label f ++ " is required")).
Proof. intros Hr He. unfold checkField. by rewrite Hr, He. Qed.

Lemma required_check_on_value RegExp f v :
  isEmptyValue v = false ->
  checkField RegExp f v =
    match firstFailure (orderedRules RegExp) f (ToString v) with
    | Some message => Rejected message
    | None => Accepted v
    end.
Proof.
  intros He. rewrite checkField_ordered. unfold checkFieldOrdered. by rewrite He.
Qed.

(** ** The tenant connection manager *)

Lemma tenantDbName_inj k1 k2 : tenantDbName k1 = tenantDbName k2 <-> k1 = k2.
Proof.
  split; [|by intros ->]. unfold tenantDbName. intros H. simpl in H. by simplify_eq.
Qed.

Lemma string_app_inv_head (a b c : string) : (a ++ b = a ++ c)%string -> b = c.
Proof. induction a as [|x a IH]; simpl; intros H; [done|]. apply IH. by simplify_eq. Qed.

Lemma tenantUri_inj base k1 k2 : tenantUri base k1 = tenantUri base k2 <-> k1 = k2.
Proof.
  split; [|by intros ->]. unfold tenantUri. intros H.
  apply string_app_inv_head in H. simpl in H. simplify_eq.
  by apply tenantDbName_inj.
Qed.

Section ConnectionFacts.

Variable base : string.

Local Abbreviation begin := (beginGetTenantConnection base).
Local Abbreviation finish := endGetTenantConnection.
Local Abbreviation resolve := (getTenantConnection base).

Lemma setReadyState_lookup c rs (h : gmap nat Connection) c' :
  setReadyState c rs h !! c' =
    if decide (c = c') then (fun conn => {| uri := uri conn; readyState := rs |}) <$> h !! c'
    else h !! c'.
Proof.
  unfold setReadyState. case_decide; subst.
  - destruct (h !! c') eqn:E; simpl; [by rewrite lookup_insert_eq|done].
  - destruct (h !! c) eqn:E; [by rewrite lookup_insert_ne|done].
Qed.

Lemma pointsTo_setReadyState σ k c c0 rs tc cr :
  cr = created σ ->
  pointsTo base σ k c ->
  pointsTo base {| heap := setReadyState c0 rs (heap σ); tenantConnections := tc;
                   created := cr |} k c.
Proof.
  intros -> [Hlt (conn & Hc & Hu)]. split; [done|]. simpl.
  rewrite setReadyState_lookup. case_decide; subst; rewrite Hc; simpl; eauto.
Qed.

Lemma pointsTo_alloc σ k c k' tc :
  pointsTo base σ k c ->
  pointsTo base {| heap := <[created σ := {| uri := tenantUri base k'; readyState := 2 |}]> (heap σ);
                   tenantConnections := tc; created := S (created σ) |} k c.
Proof.
  intros [Hlt (conn & Hc & Hu)]. split; [simpl; lia|]. simpl.
  rewrite lookup_insert_ne by lia. eauto.
Qed.

Lemma pointsTo_fresh σ k tc :
  pointsTo base {| heap := <[created σ := {| uri := tenantUri base k; readyState := 2 |}]> (heap σ);
                   tenantConnections := tc; created := S (created σ) |} k (created σ).
Proof. split; [simpl; lia|]. simpl. rewrite lookup_insert_eq. eauto. Qed.

Lemma cachedLive_Some σ k c :
  cachedLive σ k = Some c ->
  tenantConnections σ !! k = Some c /\
  exists conn, heap σ !! c = Some conn /\ readyState conn = 1.
Proof.
  unfold cachedLive. destruct (tenantConnections σ !! k) as [c'|]; [|done].
  destruct (heap σ !! c') as [conn|] eqn:E; [|done].
  destruct (readyState conn =? 1) eqn:E1; [|done].
  intros [= ->]. split; [done|]. exists conn. split; [done|]. lia.
Qed.

(** Each action keeps the system well formed. *)
Lemma act_wf s a : wfSystem base s -> wfSystem base (act base s a).
Proof.
  intros (Hc & Hw & Hr). destruct a as [caller t|caller ev|c]; simpl.
  - unfold beginGetTenantConnection.
    destruct (cachedLive (state s) (normalize t)) as [c|] eqn:E.
    + split; [done|]. split; [done|]. simpl. intros caller' k c'.
      rewrite lookup_insert. case_decide; [|apply Hr].
      intros [= <- <-]. apply Hc. by apply cachedLive_Some in E as [? _].
    + split; [|split]; simpl.
      * intros k c H. apply pointsTo_alloc. by apply Hc.
      * intros caller' k c. rewrite lookup_insert. case_decide.
        -- intros [= <- <-]. apply pointsTo_fresh.
        -- intros H'. apply pointsTo_alloc. by eapply Hw.
      * intros caller' k c H. apply pointsTo_alloc. by eapply Hr.
  - destruct (waiting s !! caller) as [[k c]|] eqn:E; [|done].
    pose proof (Hw _ _ _ E) as Hp.
    destruct ev as [|msg]; simpl.
    + split; [|split]; simpl.
      * intros k' c'. simpl. rewrite lookup_insert. case_decide.
        -- intros [= <-]. subst. by apply pointsTo_setReadyState.
        -- intros H'. apply pointsTo_setReadyState; [done|]. by apply Hc.
      * intros caller' k' c'. rewrite lookup_delete. case_decide; [done|].
        intros H'. apply pointsTo_setReadyState; [done|]. by eapply Hw.
      * intros caller' k' c'. rewrite lookup_insert. case_decide.
        -- intros [= <- <-]. by apply pointsTo_setReadyState.
        -- intros H'. apply pointsTo_setReadyState; [done|]. by eapply Hr.
    + split; [|split]; simpl.
      * intros k' c' H'. apply pointsTo_setReadyState; [done|]. by apply Hc.
      * intros caller' k' c'. rewrite lookup_delete. case_decide; [done|].
        intros H'. apply pointsTo_setReadyState; [done|]. by eapply Hw.
      * intros caller' k' c'. rewrite lookup_insert. case_decide; [done|].
        intros H'. apply pointsTo_setReadyState; [done|]. by eapply Hr.
  - split; [|split]; simpl.
    + intros k' c' H'. apply pointsTo_setReadyState; [done|]. by apply Hc.
    + intros caller' k' c' H'. apply pointsTo_setReadyState; [done|]. by eapply Hw.
    + intros caller' k' c' H'. apply pointsTo_setReadyState; [done|]. by eapply Hr.
Qed.

Lemma run_wf schedule : forall s, wfSystem base s -> wfSystem base (run base s schedule).
Proof.
  induction schedule as [|a l IH]; intros s H; simpl; [done|].
  apply IH. by apply act_wf.
Qed.

Lemma idle_wf σ : wfConn base σ -> wfSystem base (idle σ).
Proof. intros H. split; [done|]. split; intros ? ? ?; simpl; by rewrite lookup_empty. Qed.

Lemma noConnections_wf : wfConn base noConnections.
Proof. intros k c. simpl. by rewrite lookup_empty. Qed.

End ConnectionFacts.

Section ResolveFacts.

Variable base : string.

Local Abbreviation resolve := (getTenantConnection base).

(** One call run alone is the call followed by its settlement. *)
Lemma resolve_as_run σ t ev :
  let s := run base (idle σ) [Call 0 t; Settle 0 ev] in
  state s = (resolve σ t ev).2 /\
  results s !! 0%nat = Some (normalize t, (resolve σ t ev).1).
Proof.
  unfold getTenantConnection, beginGetTenantConnection. simpl.
  unfold beginGetTenantConnection.
  destruct (cachedLive σ (normalize t)) as [c|]; simpl.
  - rewrite lookup_empty. simpl. by rewrite lookup_insert_eq.
  - rewrite lookup_insert_eq. destruct ev; simpl; by rewrite lookup_insert_eq.
Qed.

Lemma resolve_wf σ t ev :
  wfConn base σ ->
  wfConn base (resolve σ t ev).2 /\
  forall c, (resolve σ t ev).1 = Returned c ->
    pointsTo base (resolve σ t ev).2 (normalize t) c.
Proof.
  intros H. destruct (resolve_as_run σ t ev) as [Hs Hr].
  pose proof (run_wf base [Call 0 t; Settle 0 ev] _ (idle_wf base σ H)) as (Hc & _ & Hres).
  rewrite Hs in Hc, Hres. split; [done|]. intros c Hc'.
  eapply Hres. rewrite Hr. by rewrite Hc'.
Qed.

(** After a call has returned a handle, the handle is cached under the
    normal form of the id and is connected. *)
Lemma resolve_caches σ t ev c σ' :
  resolve σ t ev = (Returned c, σ') -> cachedLive σ' (normalize t) = Some c.
Proof.
  unfold getTenantConnection, beginGetTenantConnection.
  destruct (cachedLive σ (normalize t)) as [c0|] eqn:E.
  - by intros [= <- <-].
  - destruct ev; simpl; [|done]. intros [= <- <-].
    unfold cachedLive; simpl. rewrite lookup_insert_eq.
    unfold setReadyState. by rewrite !lookup_insert_eq.
Qed.

Lemma resolve_hit σ t c ev :
  cachedLive σ (normalize t) = Some c -> resolve σ t ev = (Returned c, σ).
Proof.
  intros H. unfold getTenantConnection, beginGetTenantConnection. by rewrite H.
Qed.

Lemma cachedLive_alloc σ k u :
  cachedLive σ k = None ->
  cachedLive {| heap := <[created σ := {| uri := u; readyState := 2 |}]> (heap σ);
                tenantConnections := tenantConnections σ;
                created := S (created σ) |} k = None.
Proof.
  unfold cachedLive; simpl. destruct (tenantConnections σ !! k) as [c|]; [|done].
  destruct (decide (c = created σ)) as [->|Hne].
  - by rewrite lookup_insert_eq.
  - by rewrite lookup_insert_ne.
Qed.

(** While no connection has settled, every call for the tenant misses
    the cache and creates a connection of its own. *)
Lemma callAll_phase t callers : forall s,
  cachedLive (state s) (normalize t) = None ->
  let s1 := run base s (callAll t callers) in
  created (state s1) = (created (state s) + length callers)%nat /\
  tenantConnections (state s1) = tenantConnections (state s) /\
  results s1 = results s /\
  (forall c, c ∈ callers -> exists h, waiting s1 !! c = Some (normalize t, h)) /\
  (forall c, c ∉ callers -> waiting s1 !! c = waiting s !! c).
Proof.
  induction callers as [|a l IH]; intros s Hmiss; cbv zeta.
  - simpl. repeat split; try done; try lia. intros c Hc. by apply elem_of_nil in Hc.
  - change (run base s (callAll t (a :: l)))
      with (run base (act base s (Call a t)) (callAll t l)).
    set (s' := act base s (Call a t)).
    assert (cachedLive (state s') (normalize t) = None /\
            created (state s') = S (created (state s)) /\
            tenantConnections (state s') = tenantConnections (state s) /\
            results s' = results s /\
            waiting s' = <[a := (normalize t, created (state s))]> (waiting s))
      as (Hm' & Hcr & Htc & Hres & Hw).
    { subst s'. simpl. unfold beginGetTenantConnection. rewrite Hmiss. simpl.
      split; [by apply cachedLive_alloc|done]. }
    destruct (IH s' Hm') as (IH1 & IH2 & IH3 & IH4 & IH5).
    split; [rewrite IH1, Hcr; simpl; lia|]. split; [congruence|]. split; [congruence|].
    split.
    + intros c Hc. destruct (decide (c ∈ l)) as [Hin|Hnin]; [by apply IH4|].
      apply elem_of_cons in Hc as [->|Hc]; [|done].
      rewrite IH5, Hw, lookup_insert_eq by done. eauto.
    + intros c Hc. apply not_elem_of_cons in Hc as [Hne Hnin].
      by rewrite IH5, Hw, lookup_insert_ne.
Qed.

Lemma openAll_results_other order : forall s a,
  a ∉ order -> results (run base s (openAll order)) !! a = results s !! a.
Proof.
  induction order as [|b l IH]; intros s a Ha; simpl; [done|].
  apply not_elem_of_cons in Ha as [Hne Hnin]. rewrite IH by done. simpl.
  destruct (waiting s !! b) as [[k c]|]; [|done]. simpl. by rewrite lookup_insert_ne.
Qed.

(** When the connections open, each waiting caller gets its own. *)
Lemma openAll_phase k order : forall s,
  NoDup order ->
  (forall c, c ∈ order -> exists h, waiting s !! c = Some (k, h)) ->
  forall c, c ∈ order ->
    exists h, results (run base s (openAll order)) !! c = Some (k, Returned h).
Proof.
  induction order as [|a l IH]; intros s Hnd Hw c Hc; [by apply elem_of_nil in Hc|].
  apply NoDup_cons in Hnd as [Ha Hnd]. simpl.
  destruct (Hw a) as [h Hh]; [apply list_elem_of_here|].
  apply elem_of_cons in Hc as [->|Hc].
  - rewrite openAll_results_other by done. simpl. rewrite Hh. simpl.
    rewrite lookup_insert_eq. eauto.
  - apply IH; [done| |done]. intros c' Hc'. simpl. rewrite Hh. simpl.
    rewrite lookup_delete_ne by (intros ->; done).
    apply Hw. by apply list_elem_of_further.
Qed.

End ResolveFacts.



Lemma openAll_created base order : forall s,
  created (state (run base s (openAll order))) = created (state s).
Proof.
  induction order as [|a l IH]; intros s; simpl; [done|].
  rewrite IH. simpl. destruct (waiting s !! a) as [[k c]|]; [|done].
  by destruct (endGetTenantConnection (state s) k c Open) eqn:E; injection E as <- <-.
Qed.

(** C5, as the code has it: there is no gate around the check of the
    cache and the opening.  When [N] callers ask for an uncached tenant
    and all calls start before any connection has opened, each call
    misses the cache and opens a connection of its own: [N] are created
    and in flight together.  Once they open, in whatever order, every
    caller holds a handle, and every handle points to the namespace of
    the tenant's normal form. *)
Theorem concurrent_resolves_open_once_each :
  forall (base : string) (σ : ConnState) (t : string) (callers order : list nat),
  wfConn base σ ->
  cachedLive σ (normalize t) = None ->
  NoDup callers ->
  order ≡ₚ callers ->
  let s1 := run base (idle σ) (callAll t callers) in
  let s2 := run base s1 (openAll order) in
  created (state s1) = (created σ + length callers)%nat /\
  (forall c, c ∈ callers -> is_Some (waiting s1 !! c)) /\
  created (state s2) = created (state s1) /\
  (forall c, c ∈ callers ->
     exists h conn,
       results s2 !! c = Some (normalize t, Returned h) /\
       heap (state s2) !! h = Some conn /\
       uri conn = tenantUri base (normalize t)).
Proof.
  intros base σ t callers order Hwf Hmiss Hnd Hperm s1 s2.
  destruct (callAll_phase base t callers (idle σ) Hmiss) as (H1 & _ & _ & H4 & _).
  fold s1 in H1, H4.
  split; [done|]. split; [intros c Hc; destruct (H4 c Hc) as [h ->]; by eexists|].
  split; [apply openAll_created|].
  intros c Hc.
  assert (wfSystem base s2) as (_ & _ & Hres).
  { apply run_wf, run_wf. by apply idle_wf. }
  destruct (openAll_phase base (normalize t) order s1) with (c := c) as [h Hh].
  - by rewrite Hperm.
  - intros c'. rewrite Hperm. apply H4.
  - by rewrite Hperm.
  - fold s2 in Hh. destruct (Hres _ _ _ Hh) as (_ & conn & Hconn & Huri). eauto.
Qed.

Lemma concurrent_resolves_witness :
  created (state (run localUri (idle noConnections) (callAll "acme" [0; 1]%nat))) = 2%nat.
Proof.
  destruct (concurrent_resolves_open_once_each localUri noConnections "acme"
              [0; 1]%nat [1; 0]%nat) as (H & _).
  - apply noConnections_wf.
  - reflexivity.
  - apply NoDup_cons. split; [by intros ?%list_elem_of_singleton|].
    apply NoDup_singleton.
  - apply perm_swap.
  - exact H.
Defined.

(** Against C5 as stated: two calls for the same uncached tenant, both
    started before either connection opens, create two connections; both
    are in flight together and both open. *)
Lemma two_concurrent_resolves_open_twice :
  size (waiting (run localUri (idle noConnections)
                   [Call 0 "acme"; Call 1 "acme"])) = 2%nat /\
  created (state (run localUri (idle noConnections)
                    [Call 0 "acme"; Call 1 "acme"; Settle 0 Open; Settle 1 Open]))
    <> 1%nat /\
  results (run localUri (idle noConnections)
             [Call 0 "acme"; Call 1 "acme"; Settle 0 Open; Settle 1 Open])
    = {[ 0%nat := ("acme", Returned 0%nat); 1%nat := ("acme", Returned 1%nat) ]}.
Proof. split; [reflexivity|]. split; [by vm_compute|reflexivity]. Qed.

(** C6: when the open attempt fails, the call throws the
    storage-unavailable error, the cache is what it was, nothing live is
    cached for the tenant, and the next call for the same id opens a
    fresh connection, which is cached if it opens. *)
Theorem failed_open_is_not_cached :
  forall (base : string) (σ : ConnState) (t message : string),
  cachedLive σ (normalize t) = None ->
  let r := getTenantConnection base σ t (Error message) in
  r.1 = Thrown ("Failed to connect to tenant database: " ++ message) /\
  tenantConnections r.2 = tenantConnections σ /\
  cachedLive r.2 (normalize t) = None /\
  created r.2 = S (created σ) /\
  (beginGetTenantConnection base r.2 t).1 = Opening (normalize t) (created r.2) /\
  exists σ'',
    getTenantConnection base r.2 t Open = (Returned (created r.2), σ'') /\
    tenantConnections σ'' !! normalize t = Some (created r.2).
Proof.
  intros base σ t message Hmiss r.
  assert (r = endGetTenantConnection
                {| heap := <[created σ := {| uri := tenantUri base (normalize t);
                                             readyState := 2 |}]> (heap σ);
                   tenantConnections := tenantConnections σ;
                   created := S (created σ) |}
                (normalize t) (created σ) (Error message)) as Hr.
  { subst r. unfold getTenantConnection, beginGetTenantConnection. by rewrite Hmiss. }
  simpl in Hr.
  assert (cachedLive r.2 (normalize t) = None) as Hmiss'.
  { rewrite Hr. unfold cachedLive in *; simpl.
    destruct (tenantConnections σ !! normalize t) as [c|]; [|done].
    rewrite setReadyState_lookup. case_decide as Hc.
    - subst c. by rewrite lookup_insert_eq.
    - by rewrite lookup_insert_ne. }
  split; [by rewrite Hr|]. split; [by rewrite Hr|]. split; [done|].
  split; [by rewrite Hr|].
  unfold getTenantConnection, beginGetTenantConnection. rewrite Hmiss'. simpl.
  split; [done|]. eexists. split; [done|]. simpl. by rewrite lookup_insert_eq.
Qed.

Lemma failed_open_witness :
  (getTenantConnection localUri noConnections "xyz" (Error "timed out")).1 =
    Thrown "Failed to connect to tenant database: timed out" /\
  tenantConnections (getTenantConnection localUri noConnections "xyz" (Error "timed out")).2 = ∅.
Proof.
  destruct (failed_open_is_not_cached localUri noConnections "xyz" "timed out")
    as (H1 & H2 & _); [reflexivity|].
  split; [exact H1|exact H2].
Defined.

(** ** The routes *)

(** C8, as the code runs: the handler calls [getUserModel] without
    [await], so [UserModel] is a promise, [UserModel.findById] is not a
    function, and every request ends in the [catch] with status 500 --
    also for a record that exists in the tenant's namespace, which the
    awaited model finds. *)
Theorem getUser_always_fails :
  forall (base : string) (w : World) (tenantId userId : string),
  (getUser base w tenantId userId).1 =
    UserError "Error fetching user" "UserModel.findById is not a function" /\
  (forall RegExp,
     findById (registered RegExp 1) (TheModel 0) (sampleId 1) =
       Returned (Some {| user_id := sampleId 1; user_tenantId := "xyz";
                         user_fields := {["name" := JStr "Jo"]}; createdAt := 1 |}) /\
     (getUser localUri (registered RegExp 1) "xyz" (sampleId 1)).1 =
       UserError "Error fetching user" "UserModel.findById is not a function").
Proof.
  intros base w tenantId userId. split.
  - unfold getUser, getUserModelNoAwait.
    by destruct (tenantUserModels w !! normalize tenantId).
  - intros RegExp. split; reflexivity.
Qed.

(** ** The schema registry *)

Lemma findOneAndUpdate_none collection tenantId newFields :
  findOne collection tenantId = None ->
  findOneAndUpdate collection tenantId newFields = (None, collection).
Proof.
  unfold findOne. induction collection as [|doc rest IH]; simpl; [done|].
  destruct (String.eqb (schema_tenantId doc) (trim tenantId)); [done|].
  intros H. by rewrite IH.
Qed.

Lemma findOneAndUpdate_some collection tenantId newFields doc :
  findOne collection tenantId = Some doc ->
  (findOneAndUpdate collection tenantId newFields).1 =
    Some {| schema_tenantId := schema_tenantId doc; fields := newFields |}.
Proof.
  unfold findOne. induction collection as [|d rest IH]; simpl; [done|].
  destruct (String.eqb (schema_tenantId d) (trim tenantId)).
  - by intros [= ->].
  - intros H. specialize (IH H).
    by destruct (findOneAndUpdate rest tenantId newFields).
Qed.

Lemma findOneAndUpdate_tenantIds collection tenantId newFields :
  map schema_tenantId (findOneAndUpdate collection tenantId newFields).2 =
  map schema_tenantId collection.
Proof.
  induction collection as [|d rest IH]; simpl; [done|].
  destruct (String.eqb (schema_tenantId d) (trim tenantId)); [done|].
  destruct (findOneAndUpdate rest tenantId newFields). simpl in *. by rewrite IH.
Qed.

(** What a lookup finds after the update: the document it found before,
    with the new fields when it is the tenant's. *)
Lemma findOne_after_update collection tenantId newFields other :
  findOne (findOneAndUpdate collection tenantId newFields).2 other =
    (fun d => if String.eqb (schema_tenantId d) (trim tenantId)
              then {| schema_tenantId := schema_tenantId d; fields := newFields |}
              else d) <$> findOne collection other.
Proof.
  unfold findOne. induction collection as [|d rest IH]; simpl; [done|].
  destruct (String.eqb (schema_tenantId d) (trim tenantId)) eqn:E; simpl.
  - destruct (String.eqb (schema_tenantId d) (trim other)) eqn:E'; simpl;
      [by rewrite E|].
    clear IH. induction rest as [|d' rest' IH']; simpl; [done|].
    destruct (String.eqb (schema_tenantId d') (trim other)) eqn:E''; simpl; [|done].
    apply String.eqb_eq in E, E''. apply String.eqb_neq in E'.
    destruct (String.eqb (schema_tenantId d') (trim tenantId)) eqn:E3; [|done].
    apply String.eqb_eq in E3. congruence.
  - destruct (findOneAndUpdate rest tenantId newFields) as [r rest']. simpl in *.
    destruct (String.eqb (schema_tenantId d) (trim other)); simpl; [by rewrite E|done].
Qed.

(** C9: the update answers NotFound and changes nothing when the tenant
    has no schema; otherwise the tenant's document keeps its [tenantId]
    and has exactly the submitted fields, and every other lookup finds
    what it found before. *)
Theorem updateSchema_replaces_fields :
  forall (updateValidators : list FieldDefinition -> option string)
         (collection : list FieldSchema) (tenantId : string)
         (newFields : list FieldDefinition),
  updateValidators newFields = None ->
  let r := updateSchema updateValidators collection tenantId (Some newFields) in
  (findOne collection tenantId = None ->
     r = (AdminNotFound ("Schema not found for tenant: " ++ tenantId), collection)) /\
  (forall doc, findOne collection tenantId = Some doc ->
     r.1 = AdminOk "Field schema updated successfully"
             {| schema_tenantId := schema_tenantId doc; fields := newFields |} /\
     findOne r.2 tenantId =
       Some {| schema_tenantId := schema_tenantId doc; fields := newFields |} /\
     map schema_tenantId r.2 = map schema_tenantId collection /\
     (forall other, trim other <> trim tenantId ->
        findOne r.2 other = findOne collection other)).
Proof.
  intros validators collection tenantId newFields Hv r. subst r.
  unfold updateSchema. rewrite Hv. split.
  - intros H. by rewrite findOneAndUpdate_none.
  - intros doc H.
    pose proof (findOneAndUpdate_some collection tenantId newFields doc H) as H1.
    pose proof (findOneAndUpdate_tenantIds collection tenantId newFields) as H2.
    pose proof (findOne_after_update collection tenantId newFields) as H3.
    destruct (findOneAndUpdate collection tenantId newFields) as [[u|] coll'];
      simpl in *; [|done].
    injection H1 as ->. split; [done|]. split; [|split; [done|]].
    + rewrite H3, H. simpl.
      assert (String.eqb (schema_tenantId doc) (trim tenantId) = true) as ->; [|done].
      unfold findOne in H. by apply find_some in H as [_ ?].
    + intros other Hne. rewrite H3.
      destruct (findOne collection other) as [d|] eqn:E; [|done]. simpl.
      unfold findOne in E. apply find_some in E as [_ E]. apply String.eqb_eq in E.
      destruct (String.eqb (schema_tenantId d) (trim tenantId)) eqn:E'; [|done].
      apply String.eqb_eq in E'. congruence.
Qed.

Lemma updateSchema_witness :
  ((updateSchema requiredPaths xyzSchemas "xyz" (Some [ageField false; nameField])).1 =
     AdminOk "Field schema updated successfully"
       {| schema_tenantId := "xyz"; fields := [ageField false; nameField] |} /\
   findOne (updateSchema requiredPaths xyzSchemas "xyz"
              (Some [ageField false; nameField])).2 "xyz" =
     Some {| schema_tenantId := "xyz"; fields := [ageField false; nameField] |}) /\
  updateSchema requiredPaths xyzSchemas "abc" (Some [ageField false]) =
    (AdminNotFound "Schema not found for tenant: abc", xyzSchemas).
Proof.
  split.
  - destruct (updateSchema_replaces_fields requiredPaths xyzSchemas "xyz"
                [ageField false; nameField]) as [_ H]; [reflexivity|].
    destruct (H {| schema_tenantId := "xyz"; fields := [nameField] |}) as (H1 & H2 & _);
      [reflexivity|].
    split; [exact H1|exact H2].
  - destruct (updateSchema_replaces_fields requiredPaths xyzSchemas "abc"
                [ageField false]) as [H _]; [reflexivity|].
    apply H. reflexivity.
Defined.

#[global] Instance newerFirst_total : Total newerFirst.
Proof. intros a b. unfold newerFirst. lia. Qed.

#[global] Instance newerFirst_trans : Transitive newerFirst.
Proof. intros a b c. unfold newerFirst. lia. Qed.

Lemma StronglySorted_take_drop {A} (R : relation A) (l : list A) (i j : nat) :
  StronglySorted R l -> StronglySorted R (take j (drop i l)).
Proof.
  intros H. rewrite <- (take_drop i l) in H. apply StronglySorted_app_1_r in H.
  rewrite <- (take_drop j (drop i l)) in H. by apply StronglySorted_app_1_l in H.
Qed.

(** [Math.ceil(total / l)] for a positive [l] is the least number of
    pages of [l] records that hold [total] records. *)
Lemma ceilDiv_spec total l :
  1 ≤ l ->
  exists pages, ceilDiv total (Some l) = Fin pages /\
    l * (pages - 1) < total ≤ l * pages.
Proof.
  intros Hl. unfold ceilDiv. destruct (l =? 0) eqn:E; [lia|].
  eexists. split; [done|].
  pose proof (Z.div_mod (- total) l ltac:(lia)).
  pose proof (Z.mod_pos_bound (- total) l ltac:(lia)). nia.
Qed.

(** The destructuring defaults apply to a parameter that is absent. *)
Lemma absent_parameters_default (query : gmap string jsval) :
  (query !! "page" = None -> parseInt (pageParam query) = Some 1) /\
  (query !! "limit" = None -> parseInt (limitParam query) = Some 10).
Proof.
  unfold pageParam, limitParam, getProp. split; intros ->; reflexivity.
Qed.




(** Whatever the driver does with a skip that is not a number, a request
    whose page is not a number is never answered as page 1. *)
Lemma listUsers_invalid_page base irregularQuery w ev tenantId query users info w' :
  parseInt (pageParam query) = None ->
  listUsers base irregularQuery w ev tenantId query = (ListOk users info, w') ->
  currentPage info = None.
Proof.
  intros Hp. unfold listUsers.
  destruct (getUserModel base w tenantId ev) as [[m|e] w1]; [|discriminate].
  destruct (findPage _ _ _ _ _) as [us|e]; [|discriminate].
  intros [= <- <- <-]. exact Hp.
Qed.

(** [isValid] says that the loop rejected no field of the schema. *)
Lemma isValid_iff_no_rejection RegExp schemaFields submittedData :
  isValid (validateFields RegExp schemaFields submittedData) = true <->
  forall f, f ∈ schemaFields -> rejection RegExp submittedData f = None.
Proof.
  rewrite validateFields_isValid. unfold validateFields; simpl. split.
  - intros He f Hf. destruct (rejection RegExp submittedData f) as [m|] eqn:E; [|done].
    destruct (loop_errors_complete RegExp submittedData schemaFields (∅, ∅) (id f))
      as [m' Hm'].
    + right. exists f. rewrite E. eauto.
    + rewrite He in Hm'. by rewrite lookup_empty in Hm'.
  - intros H. apply map_eq. intros i. rewrite lookup_empty.
    destruct (_ !! i) as [m|] eqn:E; [|done].
    apply loop_errors_sound in E as [E|(f & Hf & _ & Hr)].
    + simpl in E. by rewrite lookup_empty in E.
    + by rewrite (H f Hf) in Hr.
Qed.

(** The normal form of a tenant id is made of [a-z0-9] only, and
    normalising it again changes nothing more than its case would. *)
Lemma filterString_all p s : allString p (filterString p s) = true.
Proof.
  induction s as [|c s IH]; simpl; [done|].
  destruct (p c) eqn:E; simpl; [by rewrite E|done].
Qed.

Lemma normalize_alphanumeric tenantId :
  allString (fun c => isLower c || isDigit c) (normalize tenantId) = true.
Proof. apply filterString_all. Qed.

Example normalize_project_a :
  normalize "Project-A" = "projecta" /\ normalize "projecta" = "projecta" /\
  normalize "xyz_1.0" = "xyz10" /\ normalize "ABC" = normalize "a-b-c".
Proof. repeat split; reflexivity. Qed.

(** The scenarios of the specification, run on the shared validator. *)
Example scenario_name_and_email :
  let emailField :=
    {| id := "email"; label := "Email"; type := email; options := [];
       validation := plainRules true; errorMessage := "" |} in
  forall RegExp,
    validateFields RegExp [nameField; emailField]
        {["name" := JStr "Jo"; "email" := JStr "bad"]} =
      {| isValid := false;
         errors := {["email" := "Please enter a valid email address"]};
         validatedFields := {["name" := JStr "Jo"]} |} /\
    validateFields RegExp [nameField; emailField]
        {["name" := JStr ""; "email" := JStr "a@b.com"]} =
      {| isValid := false;
         errors := {["name" := "Name is required"]};
         validatedFields := {["email" := JStr "a@b.com"]} |}.
Proof. intros emailField RegExp. split; reflexivity. Qed.

Example scenario_select :
  let choice :=
    {| id := "plan"; label := "Plan"; type := select;
       options := [{| option_label := "X"; option_value := "x" |};
                   {| option_label := "Y"; option_value := "y" |}];
       validation := plainRules true; errorMessage := "" |} in
  forall RegExp,
    checkField RegExp choice (JStr "z") = Rejected "Please select a valid option" /\
    checkField RegExp choice (JStr "x") = Accepted (JStr "x").
Proof. intros choice RegExp. split; reflexivity. Qed.

(** A pattern that compiles is applied to the string form of the value. *)
Example pattern_check_digits :
  checkField fragmentRegExp (codeField "^[0-9]+$") (JStr "12a") =
    Rejected "Code format is invalid" /\
  checkField fragmentRegExp (codeField "^[0-9]+$") (JNum 123) = Accepted (JNum 123).
Proof. split; reflexivity. Qed.

(** The model factory caches nothing either when the connection fails. *)
Lemma getUserModel_failure_not_cached base w tenantId message :
  tenantUserModels w !! normalize tenantId = None ->
  cachedLive (conns w) (normalize tenantId) = None ->
  (getUserModel base w tenantId (Error message)).1 =
    Thrown ("Failed to connect to tenant database: " ++ message) /\
  tenantUserModels (getUserModel base w tenantId (Error message)).2 = tenantUserModels w /\
  tenantConnections (conns (getUserModel base w tenantId (Error message)).2) =
    tenantConnections (conns w).
Proof.
  intros Hm Hc. unfold getUserModel. rewrite Hm.
  unfold getTenantConnection, beginGetTenantConnection. rewrite Hc. simpl. done.
Qed.

(** ** The literal regular expressions *)

Lemma append_cons c (s t : string) : (String c s ++ t)%string = String c (s ++ t).
Proof. reflexivity. Qed.

Lemma append_nil_l (s : string) : ("" ++ s)%string = s.
Proof. reflexivity. Qed.

Lemma append_nil_r (s : string) : (s ++ "")%string = s.
Proof. induction s as [|c s IH]; [done|]. by rewrite append_cons, IH. Qed.

Lemma append_assoc (a b c : string) : ((a ++ b) ++ c = a ++ (b ++ c))%string.
Proof. induction a as [|x a IH]; [done|]. by rewrite !append_cons, IH. Qed.

Lemma append_eq_nil (a b : string) : (a ++ b)%string = "" -> a = "" /\ b = "".
Proof. destruct a; [done|]. rewrite append_cons. discriminate. Qed.

Lemma length_append (a b : string) :
  String.length (a ++ b) = (String.length a + String.length b)%nat.
Proof. induction a as [|x a IH]; [done|]. rewrite append_cons. simpl. by rewrite IH. Qed.

Lemma allString_append p (a b : string) :
  allString p (a ++ b) = allString p a && allString p b.
Proof.
  induction a as [|x a IH]; [done|]. rewrite append_cons. simpl. rewrite IH.
  by destruct (p x).
Qed.

Lemma matches_seq_inv r1 r2 s :
  matches (RSeq r1 r2) s ->
  exists s1 s2, s = (s1 ++ s2)%string /\ matches r1 s1 /\ matches r2 s2.
Proof. intros H. inversion H; subst. eauto. Qed.

Lemma matches_class_inv p s :
  matches (RClass p) s -> exists c, s = String c "" /\ p c = true.
Proof. intros H. inversion H; subst. eauto. Qed.

Lemma matches_alt_inv r1 r2 s :
  matches (RAlt r1 r2) s -> matches r1 s \/ matches r2 s.
Proof. intros H. inversion H; subst; auto. Qed.

Lemma nullable_matches r : nullable r = true <-> matches r "".
Proof.
  split.
  - induction r; simpl; intros H; try discriminate.
    + constructor.
    + apply andb_true_iff in H as [H1 H2].
      change ""%string with ("" ++ "")%string. constructor; auto.
    + apply orb_true_iff in H as [H|H]; [apply matches_alt_l|apply matches_alt_r]; auto.
    + constructor.
  - intros H. remember ""%string as s eqn:Hs. induction H; simpl; try done.
    + apply append_eq_nil in Hs as [-> ->]. rewrite IHmatches1, IHmatches2; done.
    + rewrite IHmatches; done.
    + rewrite IHmatches, orb_true_r; done.
Qed.

Lemma deriv_matches c r : forall s, matches (deriv c r) s <-> matches r (String c s).
Proof.
  induction r as [| |p|r1 IH1 r2 IH2|r1 IH1 r2 IH2|r1 IH1]; intros s; simpl.
  - split; intros H; inversion H.
  - split; intros H; inversion H.
  - split.
    + destruct (p c) eqn:E; intros H; inversion H; subst. by constructor.
    + intros H. inversion H as [|? ? Hp| | | | |]; subst. rewrite Hp. constructor.
  - split.
    + intros H.
      assert (matches (RSeq (deriv c r1) r2) s -> matches (RSeq r1 r2) (String c s)) as Hl.
      { intros H'. inversion H'; subst.
        change (String c (s1 ++ s2)) with (String c s1 ++ s2)%string.
        constructor; [by apply IH1|done]. }
      destruct (nullable r1) eqn:E; [|by apply Hl].
      inversion H; subst; [by apply Hl|].
      change (String c s) with ("" ++ String c s)%string.
      constructor; [by apply nullable_matches|by apply IH2].
    + intros H. apply matches_seq_inv in H as (s1 & s2 & E & H1 & H2).
      destruct s1 as [|c' s1']; [rewrite append_nil_l in E|rewrite append_cons in E].
      * subst s2. apply nullable_matches in H1 as ->.
        apply matches_alt_r. by apply IH2.
      * injection E as <- ->.
        assert (matches (RSeq (deriv c r1) r2) (s1' ++ s2)) as Hs
          by (constructor; [by apply IH1|done]).
        destruct (nullable r1); [by apply matches_alt_l|done].
  - split.
    + intros H. inversion H; subst;
        [apply matches_alt_l; by apply IH1|apply matches_alt_r; by apply IH2].
    + intros H. inversion H; subst;
        [apply matches_alt_l; by apply IH1|apply matches_alt_r; by apply IH2].
  - split.
    + intros H. inversion H; subst.
      change (String c (s1 ++ s2)) with (String c s1 ++ s2)%string.
      constructor; [by apply IH1|done].
    + intros H. remember (RStar r1) as r eqn:Hr. remember (String c s) as t eqn:Ht.
      revert s Ht. induction H as [| | | | | |r s1 s2 H1 _ H2 IHstar]; try discriminate.
      injection Hr as ->. intros s Ht.
      destruct s1 as [|c' s1']; [rewrite append_nil_l in Ht|rewrite append_cons in Ht].
      * by apply IHstar.
      * injection Ht as -> <-. constructor; [by apply IH1|done].
Qed.

(** The matcher decides the words of the expression. *)
Lemma fullMatch_matches s : forall r, fullMatch r s = true <-> matches r s.
Proof.
  induction s as [|c s IH]; intros r; simpl.
  - apply nullable_matches.
  - rewrite IH. apply deriv_matches.
Qed.

Lemma matches_star_class p s :
  matches (RStar (RClass p)) s <-> allString p s = true.
Proof.
  split.
  - intros H. remember (RStar (RClass p)) as r eqn:Hr.
    induction H as [| | | | | |r s1 s2 H1 _ H2 IH]; try discriminate; [done|].
    injection Hr as ->. apply matches_class_inv in H1 as (c & -> & Hc).
    rewrite append_cons, append_nil_l. simpl. rewrite Hc. by apply IH.
  - induction s as [|c s IH]; simpl; intros H; [constructor|].
    apply andb_true_iff in H as [Hc Hs].
    change (String c s) with (String c "" ++ s)%string.
    constructor; [by constructor|by apply IH].
Qed.

Lemma matches_plus_class p s :
  matches (RPlus (RClass p)) s <-> s <> "" /\ allString p s = true.
Proof.
  unfold RPlus. split.
  - intros H. apply matches_seq_inv in H as (s1 & s2 & -> & H1 & H2).
    apply matches_class_inv in H1 as (c & -> & Hc). apply matches_star_class in H2.
    rewrite append_cons, append_nil_l. simpl. by rewrite Hc, H2.
  - intros [Hn H]. destruct s as [|c s]; [done|]. simpl in H.
    apply andb_true_iff in H as [Hc Hs].
    change (String c s) with (String c "" ++ s)%string.
    constructor; [by constructor|by apply matches_star_class].
Qed.

Lemma matches_char a s : matches (RChar a) s <-> s = String a "".
Proof.
  unfold RChar. split.
  - intros H. apply matches_class_inv in H as (c & -> & Hc).
    apply Ascii.eqb_eq in Hc. by subst.
  - intros ->. constructor. apply Ascii.eqb_refl.
Qed.

(** X6: [validateEmail] accepts exactly the strings of the shape
    [local@domain.tld]: three non-empty parts without white space or
    [@], the first two separated by [@] and the last two by a dot (the
    domain and the last part may contain further dots). *)
Theorem validateEmail_accepts (value errorMessage : string) :
  validateEmail value errorMessage = None <->
  exists a b c,
    value = (a ++ "@" ++ b ++ "." ++ c)%string /\
    a <> "" /\ b <> "" /\ c <> "" /\
    allString emailChar a = true /\ allString emailChar b = true /\
    allString emailChar c = true.
Proof.
  unfold validateEmail.
  assert (fullMatch emailRegex value = true <->
          exists a b c,
            value = (a ++ "@" ++ b ++ "." ++ c)%string /\
            a <> "" /\ b <> "" /\ c <> "" /\
            allString emailChar a = true /\ allString emailChar b = true /\
            allString emailChar c = true) as Hm.
  { rewrite fullMatch_matches. unfold emailRegex. fold emailChar. split.
    - intros H.
      apply matches_seq_inv in H as (a & s1 & -> & Ha & H).
      apply matches_seq_inv in H as (at' & s2 & -> & Hat & H).
      apply matches_seq_inv in H as (b & s3 & -> & Hb & H).
      apply matches_seq_inv in H as (dot & c & -> & Hdot & Hc).
      apply matches_char in Hat as ->. apply matches_char in Hdot as ->.
      apply matches_plus_class in Ha as [? ?], Hb as [? ?], Hc as [? ?].
      exists a, b, c. done.
    - intros (a & b & c & -> & Ha & Hb & Hc & Pa & Pb & Pc).
      constructor; [by apply matches_plus_class|].
      change ("@" ++ b ++ "." ++ c)%string with ("@" ++ (b ++ "." ++ c))%string.
      constructor; [by apply matches_char|].
      constructor; [by apply matches_plus_class|].
      constructor; [by apply matches_char|by apply matches_plus_class]. }
  rewrite <- Hm. destruct (fullMatch emailRegex value); simpl; split; congruence.
Qed.

Lemma matches_times_class p n : forall s,
  matches (RTimes n (RClass p)) s <-> String.length s = n /\ allString p s = true.
Proof.
  induction n as [|n IH]; intros s; simpl.
  - split.
    + intros H. by inversion H.
    + intros [H _]. destruct s; [constructor|discriminate].
  - split.
    + intros H. apply matches_seq_inv in H as (s1 & s2 & -> & H1 & H2).
      apply matches_class_inv in H1 as (c & -> & Hc). apply IH in H2 as [<- H2].
      rewrite append_cons, append_nil_l. simpl. by rewrite Hc, H2.
    + intros [Hl H]. destruct s as [|c s]; [discriminate|]. simpl in *.
      apply andb_true_iff in H as [Hc Hs].
      change (String c s) with (String c "" ++ s)%string.
      constructor; [by constructor|]. apply IH. split; [lia|done].
Qed.

Lemma matches_upto_class p n : forall s,
  matches (RUpTo n (RClass p)) s <-> (String.length s <= n)%nat /\ allString p s = true.
Proof.
  induction n as [|n IH]; intros s; simpl.
  - split.
    + intros H. by inversion H.
    + intros [H _]. destruct s; [constructor|simpl in H; lia].
  - unfold ROpt. split.
    + intros H. apply matches_alt_inv in H as [H|H].
      * inversion H; subst. simpl. split; [lia|done].
      * apply matches_seq_inv in H as (s1 & s2 & -> & H1 & H2).
        apply matches_class_inv in H1 as (c & -> & Hc). apply IH in H2 as [Hl H2].
        rewrite append_cons, append_nil_l. simpl. rewrite Hc, H2. split; [lia|done].
    + intros [Hl H]. destruct s as [|c s]; [apply matches_alt_l; constructor|].
      simpl in *. apply andb_true_iff in H as [Hc Hs]. apply matches_alt_r.
      change (String c s) with (String c "" ++ s)%string.
      constructor; [by constructor|]. apply IH. split; [lia|done].
Qed.

Lemma string_split_at n : forall s : string,
  (n <= String.length s)%nat ->
  exists s1 s2, s = (s1 ++ s2)%string /\ String.length s1 = n.
Proof.
  induction n as [|n IH]; intros s H.
  - by exists ""%string, s.
  - destruct s as [|c s]; simpl in H; [lia|].
    destruct (IH s) as (s1 & s2 & -> & Hl); [lia|].
    exists (String c s1), s2. split; [done|]. simpl. by rewrite Hl.
Qed.

Lemma matches_between_class p lo hi s :
  (lo <= hi)%nat ->
  matches (RBetween lo hi (RClass p)) s <->
  (lo <= String.length s <= hi)%nat /\ allString p s = true.
Proof.
  intros Hlh. unfold RBetween. split.
  - intros H. apply matches_seq_inv in H as (s1 & s2 & -> & H1 & H2).
    apply matches_times_class in H1 as [H1 P1].
    apply matches_upto_class in H2 as [H2 P2].
    rewrite length_append, allString_append, P1, P2. split; [lia|done].
  - intros [Hl P]. destruct (string_split_at lo s) as (s1 & s2 & -> & H1); [lia|].
    rewrite allString_append in P. apply andb_true_iff in P as [P1 P2].
    rewrite length_append in Hl.
    constructor; [by apply matches_times_class|].
    apply matches_upto_class. split; [lia|done].
Qed.

(** X7: [validatePhone] looks at the value without its white space, hyphens
    and parentheses, and accepts exactly when 10 to 15 characters are
    left and all of them are digits. *)
Theorem validatePhone_accepts (value errorMessage : string) :
  validatePhone value errorMessage = None <->
  let cleanedPhone := filterString (fun c => negb (phoneFormatting c)) value in
  (10 <= String.length cleanedPhone <= 15)%nat /\ allString isDigit cleanedPhone = true.
Proof.
  unfold validatePhone. cbv zeta.
  rewrite <- (matches_between_class isDigit 10 15) by lia.
  rewrite <- fullMatch_matches. fold phoneRegex.
  destruct (fullMatch phoneRegex _); simpl; split; congruence.
Qed.

(** ** More on the shared validator *)

Lemma fold_left_ext_in {A B} (f g : A -> B -> A) (l : list B) :
  (forall b, b ∈ l -> forall a, f a b = g a b) ->
  forall a, fold_left f l a = fold_left g l a.
Proof.
  induction l as [|b l IH]; intros H a; simpl; [done|].
  rewrite (H b) by apply list_elem_of_here.
  apply IH. intros b' Hb'. apply H. by apply list_elem_of_further.
Qed.

(** The validator reads the submission at the ids of the schema only. *)
Lemma validateFields_agree RegExp schemaFields (D D' : gmap string jsval) :
  (forall f, f ∈ schemaFields -> getProp D (id f) = getProp D' (id f)) ->
  validateFields RegExp schemaFields D = validateFields RegExp schemaFields D'.
Proof.
  intros H. unfold validateFields.
  rewrite (fold_left_ext_in (loopStep RegExp D) (loopStep RegExp D') schemaFields); [done|].
  intros f Hf st. unfold loopStep. by rewrite (H f Hf).
Qed.

Lemma checkField_Accepted_nonempty RegExp f v v' :
  checkField RegExp f v = Accepted v' -> isEmptyValue v = false.
Proof.
  unfold checkField. destruct (isEmptyValue v); [|done].
  by destruct (required (validation f)).
Qed.

(** A validated entry is an entry of the submission at an id of the
    schema. *)
Lemma validatedFields_from_submission RegExp schemaFields (D : gmap string jsval) i v :
  validatedFields (validateFields RegExp schemaFields D) !! i = Some v ->
  D !! i = Some v /\ i ∈ map id schemaFields.
Proof.
  intros Hv. apply validateFields_entries in Hv as (f & Hf & <- & Hacc).
  rewrite <- checkField_ordered in Hacc.
  pose proof (checkField_Accepted_inv _ _ _ _ Hacc) as ->.
  apply checkField_Accepted_nonempty in Hacc. split.
  - unfold getProp in *. destruct (D !! id f); [done|]. discriminate.
  - apply list_elem_of_fmap. by exists f.
Qed.




(** ** The inline loop against the shared validator *)

Lemma inlineIsEmpty_agrees v :
  stringOrFalsy v -> inlineIsEmpty v = Returned (isEmptyValue v).
Proof.
  unfold inlineIsEmpty, isEmptyValue. intros [H|[s ->]].
  - by rewrite H.
  - simpl. destruct (String.eqb s "") eqn:E; [|done].
    apply String.eqb_eq in E. by subst.
Qed.

Lemma inlinePatternCheck_agrees RegExp f s :
  patternCompiles RegExp f ->
  inlinePatternCheck RegExp f s = Returned (patternCheck RegExp f s).
Proof.
  unfold patternCompiles, inlinePatternCheck, patternCheck. intros H.
  destruct (pattern (validation f)) as [p|]; [|done].
  destruct (String.eqb p "") eqn:E; [done|]. apply String.eqb_neq in E.
  destruct (H p eq_refl E) as [test ->]. by destruct (negb (test s)).
Qed.

Lemma inlineTypeCheck_agrees f s :
  noNumberOrSelectRule f -> inlineTypeCheck f s = validateByType f s.
Proof.
  unfold noNumberOrSelectRule, inlineTypeCheck, validateByType. intros [Hn Hs].
  destruct (type f); try done.
  unfold validateSelect. by rewrite Hs.
Qed.

Lemma inlineCheckField_agrees RegExp f v :
  stringOrFalsy v -> patternCompiles RegExp f -> noNumberOrSelectRule f ->
  inlineCheckField RegExp f v = Returned (checkField RegExp f v).
Proof.
  intros Hv Hp Ht. unfold inlineCheckField, checkField.
  rewrite inlineIsEmpty_agrees by done.
  destruct (required (validation f)); simpl;
    (destruct (isEmptyValue v) eqn:He; simpl; [done|]);
    (destruct Hv as [Hf|[s ->]];
       [unfold isEmptyValue in He; by rewrite Hf in He|]);
    simpl;
    (destruct (minLengthCheck f s); [done|]);
    (destruct (maxLengthCheck f s); [done|]);
    rewrite inlinePatternCheck_agrees by done; simpl;
    (destruct (patternCheck RegExp f s); [done|]);
    rewrite inlineTypeCheck_agrees by done;
    by destruct (validateByType f s).
Qed.

Lemma inlineStep_agrees RegExp submittedData st f :
  stringOrFalsy (getProp submittedData (id f)) ->
  patternCompiles RegExp f -> noNumberOrSelectRule f ->
  inlineStep RegExp submittedData st f = Returned (loopStep RegExp submittedData st f).
Proof.
  intros Hv Hp Ht. unfold inlineStep, loopStep.
  by rewrite inlineCheckField_agrees.
Qed.

Lemma inline_loop_agrees RegExp submittedData schemaFields :
  (forall f, f ∈ schemaFields ->
     stringOrFalsy (getProp submittedData (id f)) /\
     patternCompiles RegExp f /\ noNumberOrSelectRule f) ->
  forall st,
    forEach (inlineStep RegExp submittedData) schemaFields st =
      Returned (fold_left (loopStep RegExp submittedData) schemaFields st).
Proof.
  induction schemaFields as [|f l IH]; intros H st; [done|].
  destruct (H f) as (Hv & Hp & Ht); [apply list_elem_of_here|].
  change (forEach (inlineStep RegExp submittedData) (f :: l) st)
    with (inlineStep RegExp submittedData st f ≫= forEach (inlineStep RegExp submittedData) l).
  rewrite inlineStep_agrees by done.
  change (fold_left (loopStep RegExp submittedData) (f :: l) st)
    with (fold_left (loopStep RegExp submittedData) l (loopStep RegExp submittedData st f)).
  rewrite <- IH by (intros g Hg; apply H; by apply list_elem_of_further).
  reflexivity.
Qed.



Lemma forEach_throws {A S} (body : S -> A -> outcome S) (l : list A) (a : A) :
  a ∈ l -> (forall st, exists e, body st a = Thrown e) ->
  forall st, exists e, forEach body l st = Thrown e.
Proof.
  intros Ha Hthrow. induction l as [|b l IH]; intros st; [by apply elem_of_nil in Ha|].
  simpl. destruct (body st b) as [st'|e] eqn:E; [|by exists e].
  apply elem_of_cons in Ha as [<-|Ha].
  - destruct (Hthrow st) as [e He]. congruence.
  - simpl. by apply IH.
Qed.

(** X10: The inline route cannot take a value that is truthy and not a
    string (a non-zero number, [true]): [value.trim] is not a function,
    and the request is answered 500 whatever the rest of the submission
    is.  The shared validator converts such a value with [String]. *)
Theorem inline_route_fails_on_non_string :
  forall RegExp (schemas : list FieldSchema) (saveError : option string)
         (tenantId : string) (submittedData : gmap string jsval)
         (schema : FieldSchema) (f : FieldDefinition),
  findOne schemas tenantId = Some schema ->
  f ∈ fields schema ->
  falsy (getProp submittedData (id f)) = false ->
  (forall s, getProp submittedData (id f) <> JStr s) ->
  exists e,
    registerInline RegExp schemas saveError tenantId submittedData =
      RegError "Error processing registration" e.
Proof.
  intros RegExp schemas saveError tenantId D schema f Hs Hf Hfalsy Hstr.
  unfold registerInline. rewrite Hs.
  destruct (forEach_throws (inlineStep RegExp D) (fields schema) f Hf) with (st := (∅, ∅) : loopState)
    as [e ->]; [|by exists e].
  intros st. unfold inlineStep, inlineCheckField, inlineIsEmpty. rewrite Hfalsy.
  destruct (getProp D (id f)) as [| |b|n|s] eqn:E; try discriminate;
    [| |by destruct (Hstr s)];
    destruct (required (validation f)); simpl; eauto.
Qed.

Lemma inline_route_fails_on_non_string_witness :
  exists e,
    registerInline fragmentRegExp [{| schema_tenantId := "shop"; fields := [ageField false] |}]
        None "shop" {["age" := JNum 42]} =
      RegError "Error processing registration" e.
Proof.
  apply (inline_route_fails_on_non_string fragmentRegExp _ None "shop" {["age" := JNum 42]}
           {| schema_tenantId := "shop"; fields := [ageField false] |} (ageField false)).
  - reflexivity.
  - apply list_elem_of_here.
  - reflexivity.
  - intros s. discriminate.
Defined.

(** ** The client-side check against the server's *)

Section ClientFacts.

Variable RegExp : string -> option (string -> bool).
Variable formData : gmap string string.

Lemma formStep_lookup e f i :
  formStep RegExp formData e f !! i =
    if decide (id f = i) then
      match formCheck RegExp f (formValue formData (id f)) with
      | Some m => Some m
      | None => e !! i
      end
    else e !! i.
Proof.
  unfold formStep. destruct (formCheck RegExp f _); case_decide; subst;
    rewrite ?lookup_insert_eq, ?lookup_insert_ne by done; reflexivity.
Qed.

Lemma form_errors_sound fields : forall e i m,
  fold_left (formStep RegExp formData) fields e !! i = Some m ->
  e !! i = Some m \/
  exists f, f ∈ fields /\ id f = i /\
    formCheck RegExp f (formValue formData (id f)) = Some m.
Proof.
  induction fields as [|f l IH]; intros e i m H; simpl in H; [by left|].
  apply IH in H as [H|(g & Hg & Hid & Hr)].
  - rewrite formStep_lookup in H. case_decide; [|by left].
    destruct (formCheck RegExp f _) eqn:E; [|by left].
    right. exists f. split; [apply list_elem_of_here|]. by simplify_eq.
  - right. exists g. split; [by apply list_elem_of_further|done].
Qed.

Lemma form_errors_complete fields : forall e i,
  (is_Some (e !! i) \/
   exists f, f ∈ fields /\ id f = i /\
     is_Some (formCheck RegExp f (formValue formData (id f)))) ->
  is_Some (fold_left (formStep RegExp formData) fields e !! i).
Proof.
  induction fields as [|f l IH]; intros e i H; simpl.
  - destruct H as [H|(f & Hf & _)]; [done|]. by apply elem_of_nil in Hf.
  - apply IH. destruct H as [H|(g & Hg & Hid & Hr)].
    + left. rewrite formStep_lookup. case_decide; [|done].
      destruct (formCheck RegExp f _); [by eexists|done].
    + apply elem_of_cons in Hg as [->|Hg].
      * left. rewrite formStep_lookup, decide_True by done.
        destruct Hr as [m ->]. by eexists.
      * right. by exists g.
Qed.

(** [validateForm] answers [true] exactly when it flags no field. *)
Lemma validateForm_true_iff fields :
  (validateForm RegExp fields formData).2 = true <->
  forall f, f ∈ fields -> formCheck RegExp f (formValue formData (id f)) = None.
Proof.
  unfold validateForm; simpl. rewrite bool_decide_eq_true, map_size_empty_iff. split.
  - intros He f Hf. destruct (formCheck RegExp f _) as [m|] eqn:E; [|done].
    destruct (form_errors_complete fields ∅ (id f)) as [m' Hm'].
    + right. exists f. rewrite E. eauto.
    + rewrite He in Hm'. by rewrite lookup_empty in Hm'.
  - intros H. apply map_eq. intros i. rewrite lookup_empty.
    destruct (_ !! i) as [m|] eqn:E; [|done].
    apply form_errors_sound in E as [E|(f & Hf & _ & Hr)].
    + by rewrite lookup_empty in E.
    + by rewrite (H f Hf) in Hr.
Qed.

(** What the server reads at a key of the form: the string typed, or
    [undefined] where the client reads the empty string. *)
Lemma form_value_cases i :
  getProp (formBody formData) i = JStr (formValue formData i) \/
  (getProp (formBody formData) i = JUndefined /\ formValue formData i = "").
Proof.
  unfold getProp, formBody, formValue. rewrite lookup_fmap.
  destruct (formData !! i); simpl; auto.
Qed.

Lemma form_empty_agrees i :
  isEmptyValue (getProp (formBody formData) i) =
    String.eqb (trim (formValue formData i)) "".
Proof.
  destruct (form_value_cases i) as [->|[-> ->]]; [|done].
  unfold isEmptyValue. simpl.
  destruct (String.eqb (formValue formData i) "") eqn:E; [|done].
  apply String.eqb_eq in E. by rewrite E.
Qed.

Lemma validateByType_None_inline f s :
  validateByType f s = None -> inlineTypeCheck f s = None.
Proof. unfold validateByType, inlineTypeCheck. by destruct (type f). Qed.

(** A field the client flags is a field the server rejects. *)
Lemma formCheck_Some_rejected f m :
  formCheck RegExp f (formValue formData (id f)) = Some m ->
  exists m', checkField RegExp f (getProp (formBody formData) (id f)) = Rejected m'.
Proof.
  unfold formCheck, checkField. rewrite form_empty_agrees.
  destruct (required (validation f) && _); [eauto|].
  destruct (String.eqb (trim _) "") eqn:Ee; [done|].
  destruct (form_value_cases (id f)) as [->|[_ E]]; simpl.
  - destruct (minLengthCheck f _); [eauto|].
    destruct (maxLengthCheck f _); [eauto|].
    destruct (patternCheck RegExp f _); [eauto|].
    destruct (validateByType f _) eqn:Et; [eauto|].
    by rewrite (validateByType_None_inline _ _ Et).
  - by rewrite E in Ee.
Qed.

(** Without a [number] or [select] rule to apply, a field the server
    rejects is a field the client flags. *)
Lemma rejected_formCheck_Some f m :
  noNumberOrSelectRule f ->
  checkField RegExp f (getProp (formBody formData) (id f)) = Rejected m ->
  is_Some (formCheck RegExp f (formValue formData (id f))).
Proof.
  intros Ht. unfold formCheck, checkField. rewrite form_empty_agrees.
  destruct (required (validation f) && _); [eauto|].
  destruct (String.eqb (trim _) "") eqn:Ee; [done|].
  destruct (form_value_cases (id f)) as [->|[_ E]]; simpl.
  - destruct (minLengthCheck f _); [eauto|].
    destruct (maxLengthCheck f _); [eauto|].
    rewrite inlineTypeCheck_agrees by done.
    destruct (validateByType f _); [eauto|].
    destruct (patternCheck RegExp f _); [eauto|done].
  - by rewrite E in Ee.
Qed.

End ClientFacts.


(** ** More on the connection manager *)

Lemma setReadyState_0_lookup c (h : gmap nat Connection) c' :
  setReadyState c 0 h !! c' =
    if decide (c = c') then disconnected <$> h !! c' else h !! c'.
Proof.
  unfold setReadyState. case_decide; subst.
  - destruct (h !! c') eqn:E; simpl; [by rewrite lookup_insert_eq|done].
  - destruct (h !! c) eqn:E; [by rewrite lookup_insert_ne|done].
Qed.

Lemma cachedLive_None_iff σ k :
  cachedLive σ k = None <->
  forall c, tenantConnections σ !! k = Some c -> isConnected (heap σ) c = false.
Proof.
  unfold cachedLive, isConnected. split.
  - intros H c Hc. rewrite Hc in H. destruct (heap σ !! c) as [conn|]; [|done].
    by destruct (readyState conn =? 1).
  - intros H. destruct (tenantConnections σ !! k) as [c|]; [|done].
    specialize (H c eq_refl). destruct (heap σ !! c) as [conn|]; [|done].
    by rewrite H.
Qed.

Lemma active_iff_cachedLive σ k :
  k ∈ getActiveTenantConnections σ <-> is_Some (cachedLive σ k).
Proof.
  unfold getActiveTenantConnections. rewrite list_elem_of_fmap. split.
  - intros ([k' c] & -> & Hin). apply list_elem_of_filter in Hin as [Hlive Hin].
    simpl in *. apply elem_of_map_to_list in Hin.
    unfold cachedLive. rewrite Hin. unfold isConnected in Hlive.
    destruct (heap σ !! c) as [conn|]; [|done]. rewrite Hlive. by eexists.
  - intros [c E]. apply cachedLive_Some in E as (Hc & conn & Hh & Hr).
    exists (k, c). split; [done|].
    apply list_elem_of_filter. split; [|by apply elem_of_map_to_list].
    simpl. unfold isConnected. rewrite Hh. lia.
Qed.

(** X11: The active list is the set of tenants served from the cache: a key
    is listed exactly when a call for an id with that normal form returns
    at once, whatever would happen to an open attempt, and leaves the
    state as it is. *)
Theorem active_connections_are_cache_hits :
  forall (base : string) (σ : ConnState) (t : string),
  normalize t ∈ getActiveTenantConnections σ <->
  exists c, forall ev, getTenantConnection base σ t ev = (Returned c, σ).
Proof.
  intros base σ t. rewrite active_iff_cachedLive. split.
  - intros [c E]. exists c. intros ev. by apply resolve_hit.
  - intros [c H]. specialize (H (Error "")).
    unfold getTenantConnection, beginGetTenantConnection in H.
    destruct (cachedLive σ (normalize t)) as [c'|] eqn:E; [by eexists|discriminate].
Qed.

(** X12: Closing a tenant's connection removes it from the cache under the
    normal form of the id and touches no other key; the connection is
    left disconnected, and the next call for any id with that normal
    form opens a new connection. *)
Theorem closeTenantConnection_evicts :
  forall (closeError : nat -> option string) (base : string) (σ : ConnState)
         (t : string) (c : nat),
  tenantConnections σ !! normalize t = Some c ->
  closeError c = None ->
  let r := closeTenantConnection closeError σ t in
  r.1 = Returned () /\
  tenantConnections r.2 !! normalize t = None /\
  (forall k, k <> normalize t -> tenantConnections r.2 !! k = tenantConnections σ !! k) /\
  heap r.2 !! c = (disconnected <$> heap σ !! c) /\
  (normalize t ∉ getActiveTenantConnections r.2) /\
  (forall t', normalize t' = normalize t ->
     (beginGetTenantConnection base r.2 t').1 = Opening (normalize t) (created σ)).
Proof.
  intros closeError base σ t c Hc Hok r. subst r.
  unfold closeTenantConnection. rewrite Hc, Hok. simpl.
  split; [done|]. split; [apply lookup_delete_eq|].
  split; [intros k Hk; by apply lookup_delete_ne|].
  split; [by rewrite setReadyState_0_lookup, decide_True|].
  assert (forall k, k = normalize t ->
            cachedLive {| heap := setReadyState c 0 (heap σ);
                          tenantConnections := delete (normalize t) (tenantConnections σ);
                          created := created σ |} k = None) as Hmiss.
  { intros k ->. unfold cachedLive; simpl. by rewrite lookup_delete_eq. }
  split.
  - intros Hin. apply active_iff_cachedLive in Hin as [c' H].
    rewrite Hmiss in H by done. discriminate.
  - intros t' Ht'. unfold beginGetTenantConnection. rewrite Hmiss by done.
    simpl. by rewrite Ht'.
Qed.

Lemma closeTenantConnection_witness :
  let σ := (getTenantConnection localUri noConnections "Project-A" Open).2 in
  tenantConnections (closeTenantConnection (fun _ => None) σ "projecta").2 !! "projecta" = None /\
  (beginGetTenantConnection localUri
     (closeTenantConnection (fun _ => None) σ "projecta").2 "PROJECT_A").1 =
    Opening "projecta" 1.
Proof.
  destruct (closeTenantConnection_evicts (fun _ => None) localUri
              (getTenantConnection localUri noConnections "Project-A" Open).2
              "projecta" 0%nat) as (_ & H2 & _ & _ & _ & H6); [reflexivity..|].
  split; [exact H2|]. apply (H6 "PROJECT_A"). reflexivity.
Defined.

Section CloseAllFacts.

Variable closeError : nat -> option string.

Lemma closeQuietly_lookup h entry c' :
  closeQuietly closeError h entry !! c' =
    if decide (entry.2 = c' /\ closeError c' = None)
    then disconnected <$> h !! c' else h !! c'.
Proof.
  unfold closeQuietly. destruct (closeError entry.2) as [e|] eqn:E.
  - rewrite decide_False; [done|]. intros [<- H]. congruence.
  - rewrite setReadyState_0_lookup. case_decide as Hc.
    + subst. by rewrite decide_True.
    + rewrite decide_False; [done|]. by intros [? _].
Qed.

Lemma closeEach_lookup entries : forall h c',
  fold_left (closeQuietly closeError) entries h !! c' =
    if decide (c' ∈ entries.*2 /\ closeError c' = None)
    then disconnected <$> h !! c' else h !! c'.
Proof.
  induction entries as [|entry l IH]; intros h c'.
  - case_decide as H; [|done]. destruct H as [H _]. by apply elem_of_nil in H.
  - change (fold_left (closeQuietly closeError) (entry :: l) h)
      with (fold_left (closeQuietly closeError) l (closeQuietly closeError h entry)).
    rewrite IH, closeQuietly_lookup. rewrite fmap_cons.
    destruct (decide (c' ∈ l.*2 /\ closeError c' = None)) as [[Hin Hok]|Hn].
    + rewrite (decide_True (P := c' ∈ entry.2 :: l.*2 /\ _))
        by (split; [by apply list_elem_of_further|done]).
      case_decide; [|done]. by destruct (h !! c').
    + destruct (decide (entry.2 = c' /\ closeError c' = None)) as [[He Hok]|Hn'].
      * rewrite decide_True; [done|]. split; [|done]. subst. apply list_elem_of_here.
      * rewrite decide_False; [done|]. intros [Hin Hok].
        apply elem_of_cons in Hin as [->|Hin]; [by apply Hn'|by apply Hn].
Qed.

Lemma cached_in_entries (σ : ConnState) c :
  c ∈ (map_to_list (tenantConnections σ)).*2 <->
  exists k, tenantConnections σ !! k = Some c.
Proof.
  rewrite list_elem_of_fmap. split.
  - intros ([k c'] & -> & Hin). apply elem_of_map_to_list in Hin. by exists k.
  - intros [k Hk]. exists (k, c). split; [done|]. by apply elem_of_map_to_list.
Qed.

End CloseAllFacts.

(** X13: Shutting down: [closeAllTenantConnections] cannot fail, leaves the
    cache empty and nothing active even when some [close] rejects, and
    disconnects every cached connection whose [close] succeeds.  It
    touches cached connections only: a connection that is not in the
    cache -- one that lost the race of two concurrent opens -- stays as
    it was.  Any call that follows opens a new connection. *)
Theorem closeAllTenantConnections_clears_cache :
  forall (closeError : nat -> option string) (base : string) (σ : ConnState),
  let σ' := closeAllTenantConnections closeError σ in
  tenantConnections σ' = ∅ /\
  getActiveTenantConnections σ' = [] /\
  created σ' = created σ /\
  (forall k c, tenantConnections σ !! k = Some c -> closeError c = None ->
     heap σ' !! c = (disconnected <$> heap σ !! c)) /\
  (forall c, (forall k, tenantConnections σ !! k <> Some c) ->
     heap σ' !! c = heap σ !! c) /\
  (forall t, (beginGetTenantConnection base σ' t).1 = Opening (normalize t) (created σ)).
Proof.
  intros closeError base σ σ'. subst σ'. unfold closeAllTenantConnections; simpl.
  split; [done|]. split.
  { unfold getActiveTenantConnections; simpl. by rewrite map_to_list_empty. }
  split; [done|]. split; [|split].
  - intros k c Hk Hok. rewrite closeEach_lookup, decide_True; [done|].
    split; [|done]. apply cached_in_entries. by exists k.
  - intros c Hc. rewrite closeEach_lookup, decide_False; [done|].
    intros [Hin _]. apply cached_in_entries in Hin as [k Hk]. by apply (Hc k).
  - intros t. unfold beginGetTenantConnection, cachedLive; simpl.
    by rewrite lookup_empty.
Qed.

(** After two concurrent opens for one tenant and a shutdown, the
    connection opened first is still connected. *)
Lemma closeAllTenantConnections_witness :
  let σ := state (run localUri (idle noConnections)
                    [Call 0 "acme"; Call 1 "acme"; Settle 0 Open; Settle 1 Open]) in
  heap (closeAllTenantConnections (fun _ => None) σ) !! 0%nat =
    Some {| uri := "mongodb://localhost:27017/tenant_acme"; readyState := 1 |} /\
  heap (closeAllTenantConnections (fun _ => None) σ) !! 1%nat =
    Some {| uri := "mongodb://localhost:27017/tenant_acme"; readyState := 0 |}.
Proof.
  destruct (closeAllTenantConnections_clears_cache (fun _ => None) localUri
              (state (run localUri (idle noConnections)
                        [Call 0 "acme"; Call 1 "acme"; Settle 0 Open; Settle 1 Open])))
    as (_ & _ & _ & H4 & H5 & _).
  split.
  - etransitivity; [apply H5|reflexivity].
    intros k Hk.
    assert (tenantConnections
              (state (run localUri (idle noConnections)
                        [Call 0 "acme"; Call 1 "acme"; Settle 0 Open; Settle 1 Open])) =
            {["acme" := 1%nat]}) as E by reflexivity.
    rewrite E in Hk. apply lookup_singleton_Some in Hk as [_ Hk]. discriminate.
  - etransitivity; [apply (H4 "acme"); reflexivity|reflexivity].
Defined.

Lemma getUserModel_caches base w t ev m w1 :
  getUserModel base w t ev = (Returned m, w1) ->
  tenantUserModels w1 !! normalize t = Some m.
Proof.
  unfold getUserModel.
  destruct (tenantUserModels w !! normalize t) as [m0|] eqn:E0.
  - by intros [= <- <-].
  - destruct (getTenantConnection base (conns w) t ev) as [[c|e] σ'];
      [|discriminate].
    intros [= <- <-]. simpl. by rewrite lookup_insert_eq.
Qed.

(** X14: The model cache outlives the connection: closing a tenant's
    connection does not evict the tenant's model, so [getUserModel]
    keeps returning the model compiled on the closed connection and
    opens nothing, while that connection is disconnected and no longer
    in the connection cache. *)
Theorem closed_connection_model_still_served :
  forall (closeError : nat -> option string) (base : string) (w : World)
         (t : string) (ev : openEvent) (m : nat) (w1 : World),
  getUserModel base w t ev = (Returned m, w1) ->
  tenantConnections (conns w1) !! normalize t = Some m ->
  closeError m = None ->
  let w2 := withConns w1 (closeTenantConnection closeError (conns w1) t).2 in
  (forall ev', getUserModel base w2 t ev' = (Returned m, w2)) /\
  isConnected (heap (conns w2)) m = false /\
  tenantConnections (conns w2) !! normalize t = None.
Proof.
  intros closeError base w t ev m w1 Hm Hc Hok w2.
  apply getUserModel_caches in Hm.
  split; [|split].
  - intros ev'. unfold getUserModel. subst w2. simpl. by rewrite Hm.
  - subst w2. unfold closeTenantConnection. rewrite Hc, Hok. simpl.
    unfold isConnected. rewrite setReadyState_0_lookup, decide_True by done.
    by destruct (heap (conns w1) !! m).
  - subst w2. unfold closeTenantConnection. rewrite Hc, Hok. simpl.
    apply lookup_delete_eq.
Qed.

Lemma closed_connection_model_witness :
  let w1 := (getUserModel localUri emptyWorld "xyz" Open).2 in
  let w2 := withConns w1 (closeTenantConnection (fun _ => None) (conns w1) "xyz").2 in
  getUserModel localUri w2 "xyz" (Error "down") = (Returned 0%nat, w2) /\
  isConnected (heap (conns w2)) 0 = false.
Proof.
  destruct (closed_connection_model_still_served (fun _ => None) localUri emptyWorld
              "xyz" Open 0%nat (getUserModel localUri emptyWorld "xyz" Open).2)
    as (H1 & H2 & _); [reflexivity..|].
  split; [apply H1|exact H2].
Defined.

(** ** Any interleaving of calls *)

Lemma act_created base s a :
  (created (state s) <= created (state (act base s a))
   <= created (state s) + (if isCall a then 1 else 0))%nat.
Proof.
  destruct a as [caller t|caller ev|c]; simpl.
  - unfold beginGetTenantConnection.
    destruct (cachedLive (state s) (normalize t)); simpl; lia.
  - destruct (waiting s !! caller) as [[k c]|]; [|lia].
    destruct ev; simpl; lia.
  - lia.
Qed.

Lemma run_created base schedule : forall s,
  (created (state s) <= created (state (run base s schedule))
   <= created (state s) + length (List.filter isCall schedule))%nat.
Proof.
  induction schedule as [|a l IH]; intros s; simpl; [lia|].
  specialize (IH (act base s a)). pose proof (act_created base s a) as Ha.
  revert IH Ha. destruct (isCall a); simpl; lia.
Qed.

(** X15: Whatever the interleaving of calls, settlements and lost
    connections: a handle returned to a caller is a connection to the
    database of the normal form of the id that caller asked for, and no
    more connections are created than calls were made. *)
Theorem any_schedule_hands_out_the_right_namespace :
  forall (base : string) (σ : ConnState) (schedule : list action),
  wfConn base σ ->
  let s := run base (idle σ) schedule in
  (forall caller k c, results s !! caller = Some (k, Returned c) ->
     exists conn, heap (state s) !! c = Some conn /\ uri conn = tenantUri base k) /\
  (created (state s) <= created σ + length (List.filter isCall schedule))%nat.
Proof.
  intros base σ schedule Hwf s. split.
  - intros caller k c H.
    destruct (run_wf base schedule (idle σ) (idle_wf base σ Hwf)) as (_ & _ & Hres).
    by destruct (Hres caller k c H) as [_ ?].
  - apply (run_created base schedule (idle σ)).
Qed.

Lemma any_schedule_witness :
  let s := run localUri (idle noConnections)
             [Call 0 "Acme"; Call 1 "beta"; Settle 1 Open; Lost 1; Call 2 "BETA";
              Settle 0 (Error "timeout"); Settle 2 Open] in
  (forall caller k c, results s !! caller = Some (k, Returned c) ->
     exists conn, heap (state s) !! c = Some conn /\ uri conn = tenantUri localUri k) /\
  (created (state s) <= 3)%nat.
Proof.
  apply (any_schedule_hands_out_the_right_namespace localUri noConnections
           [Call 0 "Acme"; Call 1 "beta"; Settle 1 Open; Lost 1; Call 2 "BETA";
            Settle 0 (Error "timeout"); Settle 2 Open]).
  apply noConnections_wf.
Defined.

Lemma run_app base s l1 l2 : run base s (l1 ++ l2) = run base (run base s l1) l2.
Proof. unfold run. apply fold_left_app. Qed.

(** X16: Calls made one after another for the same tenant open one
    connection: the first call creates it and every caller gets that
    same handle. *)
Theorem sequential_resolves_open_once :
  forall (base : string) (σ : ConnState) (t : string) (first : nat) (callers : list nat),
  cachedLive σ (normalize t) = None ->
  let s := run base (idle σ) (oneAfterAnother t (first :: callers)) in
  created (state s) = S (created σ) /\
  forall caller, caller ∈ first :: callers ->
    results s !! caller = Some (normalize t, Returned (created σ)).
Proof.
  intros base σ t first callers Hmiss s.
  set (s1 := run base (idle σ) [Call first t; Settle first Open]).
  assert (created (state s1) = S (created σ) /\
          cachedLive (state s1) (normalize t) = Some (created σ) /\
          waiting s1 = ∅ /\
          results s1 !! first = Some (normalize t, Returned (created σ)))
    as (Hcr & Hlive & Hw & Hres).
  { subst s1. simpl. unfold beginGetTenantConnection. rewrite Hmiss. simpl.
    rewrite lookup_insert_eq. simpl. split; [done|]. split; [|split].
    - unfold cachedLive; simpl. rewrite lookup_insert_eq.
      unfold setReadyState. by rewrite !lookup_insert_eq.
    - by rewrite delete_insert_eq, delete_empty.
    - by rewrite lookup_insert_eq. }
  assert (forall l s0,
            cachedLive (state s0) (normalize t) = Some (created σ) ->
            waiting s0 = ∅ ->
            let s' := run base s0 (oneAfterAnother t l) in
            state s' = state s0 /\
            forall caller,
              results s' !! caller =
                if decide (caller ∈ l) then Some (normalize t, Returned (created σ))
                else results s0 !! caller) as Hrest.
  { induction l as [|a l IH]; intros s0 Hl Hw0; cbv zeta.
    - split; [done|]. intros caller. rewrite decide_False; [done|]. apply not_elem_of_nil.
    - change (oneAfterAnother t (a :: l))
        with ([Call a t; Settle a Open] ++ oneAfterAnother t l)%list.
      rewrite run_app.
      set (s0' := run base s0 [Call a t; Settle a Open]).
      assert (state s0' = state s0 /\ waiting s0' = ∅ /\
              results s0' = <[a := (normalize t, Returned (created σ))]> (results s0))
        as (Hst & Hw' & Hr').
      { subst s0'. simpl. unfold beginGetTenantConnection. rewrite Hl. simpl.
        by rewrite Hw0, lookup_empty. }
      destruct (IH s0') as (IH1 & IH2); [by rewrite Hst|done|].
      split; [by rewrite IH1|]. intros caller. rewrite IH2, Hr'.
      destruct (decide (caller ∈ l)) as [Hin|Hnin].
      + rewrite decide_True; [done|]. by apply list_elem_of_further.
      + destruct (decide (caller = a)) as [->|Hne].
        * rewrite lookup_insert_eq, decide_True; [done|]. apply list_elem_of_here.
        * rewrite lookup_insert_ne by done. rewrite decide_False; [done|].
          intros [?|?]%elem_of_cons; done. }
  subst s.
  change (oneAfterAnother t (first :: callers))
    with ([Call first t; Settle first Open] ++ oneAfterAnother t callers)%list.
  rewrite run_app. fold s1.
  destruct (Hrest callers s1 Hlive Hw) as (H1 & H2).
  split; [by rewrite H1|]. intros caller Hc. rewrite H2.
  destruct (decide (caller ∈ callers)); [done|].
  apply elem_of_cons in Hc as [->|?]; done.
Qed.

Lemma sequential_resolves_witness :
  created (state (run localUri (idle noConnections)
                    (oneAfterAnother "acme" [0; 1; 2]%nat))) = 1%nat.
Proof.
  destruct (sequential_resolves_open_once localUri noConnections "acme" 0%nat [1; 2]%nat)
    as [H _]; [reflexivity|exact H].
Defined.

(** ** The rest of the schema registry *)

Lemma findOne_None_existsb collection tenantId :
  findOne collection tenantId = None <->
  existsb (hasTenantId tenantId) collection = false.
Proof.
  unfold findOne, hasTenantId. induction collection as [|d l IH]; simpl; [done|].
  destruct (String.eqb (schema_tenantId d) (trim tenantId)); simpl; [split; done|done].
Qed.

Lemma findOne_app collection doc tenantId :
  findOne (collection ++ [doc]) tenantId =
    match findOne collection tenantId with
    | Some d => Some d
    | None => if hasTenantId tenantId doc then Some doc else None
    end.
Proof.
  unfold findOne, hasTenantId. induction collection as [|d l IH]; simpl; [done|].
  by destruct (String.eqb (schema_tenantId d) (trim tenantId)).
Qed.

Lemma trim_trimStart s : trimStart (trimStart s) = trimStart s.
Proof.
  induction s as [|c s IH]; simpl; [done|].
  destruct (isSpace c) eqn:E; [done|]. simpl. by rewrite E.
Qed.

Lemma trimEnd_head c s :
  isSpace c = false -> exists r, trimEnd (String c s) = String c r.
Proof. intros H. simpl. rewrite H. simpl. eauto. Qed.

Lemma trimStart_head s :
  trimStart s = "" \/ exists c r, trimStart s = String c r /\ isSpace c = false.
Proof.
  induction s as [|c s IH]; simpl; [by left|].
  destruct (isSpace c) eqn:E; [done|]. right. eauto.
Qed.

Lemma trimEnd_idem s : trimEnd (trimEnd s) = trimEnd s.
Proof.
  induction s as [|c s IH]; simpl; [done|].
  destruct (isSpace c && String.eqb (trimEnd s) "") eqn:E; [done|].
  simpl. rewrite IH, E. done.
Qed.

Lemma trimStart_trimEnd_nonspace c s :
  isSpace c = false -> trimStart (trimEnd (String c s)) = trimEnd (String c s).
Proof. intros H. simpl. rewrite H. simpl. by rewrite H. Qed.

(** Trimming twice is trimming once: a stored [tenantId] is found again
    by the id it was stored under. *)
Lemma trim_idem s : trim (trim s) = trim s.
Proof.
  unfold trim. destruct (trimStart_head s) as [->|(c & r & -> & Hc)]; [done|].
  rewrite trimStart_trimEnd_nonspace by done. apply trimEnd_idem.
Qed.

(** X17: Creating a schema and reading it back: for a tenant without a
    schema, an id that is not blank and field definitions that have
    their id and label, the route answers 201; the form then loads
    exactly these fields under the trimmed id, the lookups of the other
    tenants are what they were, and a second creation for the tenant is
    refused with 400 and changes nothing. *)
Theorem createSchema_then_getFields :
  forall (collection : list FieldSchema) (tenantId : string)
         (newFields : list FieldDefinition),
  trim tenantId <> "" ->
  requiredPaths newFields = None ->
  findOne collection tenantId = None ->
  let r := createSchema collection tenantId (Some newFields) in
  let created := {| schema_tenantId := trim tenantId; fields := newFields |} in
  r.1 = SchemaData 201 (Some "Field schema created successfully") created /\
  getFields r.2 tenantId = SchemaData 200 None created /\
  getFields r.2 (trim tenantId) = SchemaData 200 None created /\
  (forall other, trim other <> trim tenantId -> findOne r.2 other = findOne collection other) /\
  (forall otherFields,
     createSchema r.2 tenantId (Some otherFields) =
       (SchemaMessage 400
          ("Schema already exists for tenant: " ++ tenantId ++ ". Use PUT to update."),
        r.2)).
Proof.
  intros collection tenantId newFields Hblank Hreq Hnone r created.
  assert (tenantId <> "") as Hne by (intros ->; by apply Hblank).
  assert (r = (SchemaData 201 (Some "Field schema created successfully") created,
               (collection ++ [created])%list)) as Hr.
  { subst r. unfold createSchema, saveSchema.
    apply String.eqb_neq in Hne, Hblank. rewrite Hne, Hnone, Hblank, Hreq.
    apply findOne_None_existsb in Hnone. by rewrite Hnone. }
  assert (findOne (collection ++ [created]) tenantId = Some created) as Hfound.
  { rewrite findOne_app, Hnone. unfold hasTenantId, created; simpl.
    by rewrite String.eqb_refl. }
  rewrite Hr. simpl. split; [done|]. split; [|split; [|split]].
  - unfold getFields. by rewrite Hfound.
  - unfold getFields. unfold findOne in *. by rewrite trim_idem, Hfound.
  - intros other Hother. rewrite findOne_app.
    destruct (findOne collection other); [done|].
    unfold hasTenantId, created; simpl.
    assert (String.eqb (trim tenantId) (trim other) = false) as ->; [|done].
    apply String.eqb_neq. congruence.
  - intros otherFields. unfold createSchema.
    apply String.eqb_neq in Hne. by rewrite Hne, Hfound.
Qed.

Lemma createSchema_witness :
  getFields (createSchema xyzSchemas " abc " (Some [seedNameField; seedEmailField])).2 "abc" =
    SchemaData 200 None
      {| schema_tenantId := "abc"; fields := [seedNameField; seedEmailField] |}.
Proof.
  destruct (createSchema_then_getFields xyzSchemas " abc " [seedNameField; seedEmailField])
    as (_ & _ & H & _); [discriminate|reflexivity|reflexivity|].
  exact H.
Defined.

Lemma findOneAndDelete_none collection tenantId :
  findOne collection tenantId = None ->
  findOneAndDelete collection tenantId = (None, collection).
Proof.
  unfold findOne, hasTenantId. induction collection as [|d l IH]; simpl; [done|].
  unfold hasTenantId.
  destruct (String.eqb (schema_tenantId d) (trim tenantId)); [done|].
  intros H. by rewrite IH.
Qed.

Lemma findOneAndDelete_some collection tenantId doc :
  findOne collection tenantId = Some doc ->
  (findOneAndDelete collection tenantId).1 = Some doc.
Proof.
  unfold findOne. induction collection as [|d l IH]; simpl; [done|].
  unfold hasTenantId.
  destruct (String.eqb (schema_tenantId d) (trim tenantId)); [done|].
  intros H. specialize (IH H). by destruct (findOneAndDelete l tenantId).
Qed.

Lemma findOneAndDelete_sublist collection tenantId :
  (findOneAndDelete collection tenantId).2 `sublist_of` collection.
Proof.
  induction collection as [|d l IH]; simpl; [done|].
  destruct (hasTenantId tenantId d); simpl; [by apply sublist_cons|].
  destruct (findOneAndDelete l tenantId). simpl in *. by apply sublist_skip.
Qed.

Lemma findOne_after_delete_other collection tenantId other :
  trim other <> trim tenantId ->
  findOne (findOneAndDelete collection tenantId).2 other = findOne collection other.
Proof.
  intros Hne. unfold findOne. induction collection as [|d l IH]; simpl; [done|].
  unfold hasTenantId.
  destruct (String.eqb (schema_tenantId d) (trim tenantId)) eqn:E; simpl.
  - apply String.eqb_eq in E.
    assert (String.eqb (schema_tenantId d) (trim other) = false) as ->; [|done].
    apply String.eqb_neq. congruence.
  - destruct (findOneAndDelete l tenantId) as [r l']. simpl in *.
    by destruct (String.eqb (schema_tenantId d) (trim other)).
Qed.

Lemma findOne_absent collection tenantId :
  trim tenantId ∉ map schema_tenantId collection -> findOne collection tenantId = None.
Proof.
  unfold findOne. induction collection as [|d l IH]; simpl; [done|].
  intros H. apply not_elem_of_cons in H as [Hne Hl].
  destruct (String.eqb (schema_tenantId d) (trim tenantId)) eqn:E; [|by apply IH].
  apply String.eqb_eq in E. congruence.
Qed.

Lemma findOne_after_delete_same collection tenantId :
  NoDup (map schema_tenantId collection) ->
  findOne (findOneAndDelete collection tenantId).2 tenantId = None.
Proof.
  induction collection as [|d l IH]; simpl; [done|].
  intros [Hd Hl]%NoDup_cons. unfold hasTenantId.
  destruct (String.eqb (schema_tenantId d) (trim tenantId)) eqn:E; simpl.
  - apply String.eqb_eq in E. apply findOne_absent. by rewrite <- E.
  - specialize (IH Hl). destruct (findOneAndDelete l tenantId) as [r l']. simpl in *.
    unfold findOne in *. simpl. by rewrite E.
Qed.

(** X18: Deleting a schema: NotFound and no change when the tenant has none;
    otherwise the tenant's schema is gone -- the form gets 404 and a
    second delete too -- and the other tenants' schemas are found as
    before. *)
Theorem deleteSchema_removes_the_schema :
  forall (collection : list FieldSchema) (tenantId : string),
  NoDup (map schema_tenantId collection) ->
  let r := deleteSchema collection tenantId in
  (findOne collection tenantId = None ->
     r = (SchemaMessage 404 ("Schema not found for tenant: " ++ tenantId), collection)) /\
  (is_Some (findOne collection tenantId) ->
     r.1 = SchemaMessage 200 "Field schema deleted successfully" /\
     getFields r.2 tenantId =
       SchemaMessage 404 ("No field schema found for tenant: " ++ tenantId) /\
     deleteSchema r.2 tenantId =
       (SchemaMessage 404 ("Schema not found for tenant: " ++ tenantId), r.2)) /\
  (forall other, trim other <> trim tenantId ->
     findOne r.2 other = findOne collection other).
Proof.
  intros collection tenantId Hnd r. subst r. unfold deleteSchema.
  split; [|split].
  - intros H. by rewrite findOneAndDelete_none.
  - intros [doc H].
    pose proof (findOneAndDelete_some collection tenantId doc H) as H1.
    pose proof (findOne_after_delete_same collection tenantId Hnd) as H2.
    destruct (findOneAndDelete collection tenantId) as [[d|] coll']; simpl in *; [|done].
    split; [done|]. split.
    + unfold getFields. by rewrite H2.
    + by rewrite findOneAndDelete_none.
  - intros other Hne.
    pose proof (findOne_after_delete_other collection tenantId other Hne) as H.
    by destruct (findOneAndDelete collection tenantId) as [[d|] coll'].
Qed.

Lemma deleteSchema_witness :
  getFields (deleteSchema xyzSchemas "xyz").2 "xyz" =
    SchemaMessage 404 "No field schema found for tenant: xyz".
Proof.
  destruct (deleteSchema_removes_the_schema xyzSchemas "xyz") as (_ & H & _).
  - apply NoDup_singleton.
  - destruct H as (_ & H & _); [by eexists|exact H].
Defined.

(** X19: The registry keeps one schema per tenant: if no two documents share
    a [tenantId], none do after a create, an update or a delete, whatever
    the request. *)
Theorem registry_keeps_one_schema_per_tenant :
  forall (updateValidators : list FieldDefinition -> option string)
         (collection : list FieldSchema) (tenantId : string)
         (body_fields : option (list FieldDefinition)),
  NoDup (map schema_tenantId collection) ->
  NoDup (map schema_tenantId (createSchema collection tenantId body_fields).2) /\
  NoDup (map schema_tenantId
           (updateSchema updateValidators collection tenantId body_fields).2) /\
  NoDup (map schema_tenantId (deleteSchema collection tenantId).2).
Proof.
  intros validators collection tenantId body Hnd. split; [|split].
  - unfold createSchema. destruct (String.eqb tenantId ""); [done|].
    destruct body as [newFields|]; [|done].
    destruct (findOne collection tenantId) eqn:Hf; [done|].
    unfold saveSchema. destruct (String.eqb (trim tenantId) ""); [done|].
    destruct (requiredPaths newFields); [done|].
    destruct (existsb (hasTenantId tenantId) collection) eqn:He; [done|]. simpl.
    rewrite map_app. simpl. apply NoDup_app. split; [done|].
    split; [|apply NoDup_singleton].
    intros x Hx Hx'. apply list_elem_of_singleton in Hx' as ->.
    apply list_elem_of_fmap in Hx as (d & Hd & Hin).
    assert (existsb (hasTenantId tenantId) collection = true); [|congruence].
    apply existsb_exists. exists d. split; [by apply list_elem_of_In|].
    unfold hasTenantId. rewrite <- Hd. apply String.eqb_refl.
  - unfold updateSchema. destruct body as [newFields|]; [|done].
    destruct (validators newFields); [done|].
    pose proof (findOneAndUpdate_tenantIds collection tenantId newFields) as H.
    destruct (findOneAndUpdate collection tenantId newFields) as [[u|] coll'];
      simpl in *; [by rewrite H|done].
  - unfold deleteSchema.
    pose proof (findOneAndDelete_sublist collection tenantId) as H.
    destruct (findOneAndDelete collection tenantId) as [[d|] coll']; simpl in *; [|done].
    eapply sublist_NoDup; [exact Hnd|]. by apply (fmap_sublist schema_tenantId).
Qed.

Lemma registry_keeps_one_schema_witness :
  NoDup (map schema_tenantId
           (createSchema xyzSchemas "abc" (Some [seedNameField])).2).
Proof.
  destruct (registry_keeps_one_schema_per_tenant requiredPaths xyzSchemas "abc"
              (Some [seedNameField])) as [H _]; [apply NoDup_singleton|exact H].
Defined.

(** X20: Creating a tenant twice: the first creation answers 201 and appends
    the tenant under its trimmed id; a second creation for the same id
    is refused by the unique index, which the route reports as a 500
    ("Error creating tenant"), and the collection is unchanged. *)
Theorem createTenant_twice_is_a_server_error :
  forall (tenants : list Tenant) (tenantId name description name' description' : string),
  trim tenantId <> "" -> name <> "" -> name' <> "" ->
  existsb (fun t => String.eqb (tenant_tenantId t) (trim tenantId)) tenants = false ->
  let r := createTenant tenants tenantId name description in
  let doc := {| tenant_tenantId := trim tenantId; tenant_name := name;
                tenant_description := description; tenant_isActive := true |} in
  r = (TenantData 201 "Tenant created successfully" doc, (tenants ++ [doc])%list) /\
  exists e,
    createTenant r.2 tenantId name' description' =
      (TenantFailure "Error creating tenant" e, r.2).
Proof.
  intros tenants tenantId name description name' description' Hblank Hn Hn' Hfresh r doc.
  assert (tenantId <> "") as Hne by (intros ->; by apply Hblank).
  apply String.eqb_neq in Hblank, Hn, Hn', Hne.
  assert (r = (TenantData 201 "Tenant created successfully" doc, (tenants ++ [doc])%list))
    as ->.
  { subst r. unfold createTenant, saveTenant. by rewrite Hne, Hn, Hblank, Hfresh. }
  split; [done|]. eexists. simpl. unfold createTenant, saveTenant.
  rewrite Hne, Hn', Hblank. simpl.
  rewrite existsb_app. simpl. by rewrite String.eqb_refl, orb_true_r.
Qed.

Lemma createTenant_twice_witness :
  exists e,
    createTenant (createTenant [] "xyz" "Project A" "").2 "xyz" "Project A again" "" =
      (TenantFailure "Error creating tenant" e, (createTenant [] "xyz" "Project A" "").2).
Proof.
  destruct (createTenant_twice_is_a_server_error [] "xyz" "Project A" ""
              "Project A again" "") as [_ H]; [discriminate..|reflexivity|exact H].
Defined.

Lemma saveSchema_extends collection tenantId newFields :
  collection `prefix_of` (saveSchema collection tenantId newFields).2.
Proof.
  unfold saveSchema. destruct (String.eqb (trim tenantId) ""); [done|].
  destruct (requiredPaths newFields); [done|].
  destruct (existsb _ collection); simpl; [done|]. by apply prefix_app_r.
Qed.

(** X21: Seeding: a registry that already has a tenant is left as it is, so
    seeding twice is seeding once; seeding only adds documents at the
    end of the two collections; and on an empty registry it creates the
    tenants [xyz] and [abc] with their schemas, which the form then
    loads. *)
Theorem seedInitialData_is_idempotent :
  forall (db : registry),
  seedInitialData (seedInitialData db) = seedInitialData db /\
  db.1 `prefix_of` (seedInitialData db).1 /\
  db.2 `prefix_of` (seedInitialData db).2 /\
  (db.1 <> [] -> seedInitialData db = db) /\
  (db = ([], []) ->
     map tenant_tenantId (seedInitialData db).1 = ["xyz"; "abc"] /\
     getFields (seedInitialData db).2 "xyz" =
       SchemaData 200 None
         {| schema_tenantId := "xyz"; fields := [seedNameField; seedEmailField] |} /\
     getFields (seedInitialData db).2 "abc" =
       SchemaData 200 None
         {| schema_tenantId := "abc";
            fields := [seedNameField; seedEmailField; seedPhoneField] |}).
Proof.
  intros [tenants schemas]. split; [|split; [|split; [|split]]].
  - destruct tenants as [|t l]; [|done]. simpl.
    destruct (saveSchema schemas "xyz" _) as [[d|e] schemas1]; [|done].
    by destruct (saveSchema schemas1 "abc" _) as [[d'|e'] schemas2].
  - destruct tenants as [|t l]; [|done]. apply prefix_nil.
  - destruct tenants as [|t l]; [|done]. simpl.
    pose proof (saveSchema_extends schemas "xyz" [seedNameField; seedEmailField]) as H1.
    destruct (saveSchema schemas "xyz" _) as [[d|e] schemas1]; simpl in *; [|done].
    etransitivity; [exact H1|]. apply saveSchema_extends.
  - simpl. by destruct tenants.
  - intros [= -> ->]. repeat split; reflexivity.
Qed.

(** ** Registration into the tenant databases *)

Lemma resolve_pointsTo_mono base σ t ev k c :
  pointsTo base σ k c -> pointsTo base (getTenantConnection base σ t ev).2 k c.
Proof.
  intros H. unfold getTenantConnection, beginGetTenantConnection.
  destruct (cachedLive σ (normalize t)); [done|].
  destruct H as [Hlt (conn & Hc & Hu)].
  destruct ev; (split; simpl; [lia|]);
    rewrite setReadyState_lookup; (case_decide; [lia|]);
    rewrite lookup_insert_ne by lia; eauto.
Qed.

Lemma getUserModel_databases base w t ev :
  databases (getUserModel base w t ev).2 = databases w.
Proof.
  unfold getUserModel. destruct (tenantUserModels w !! normalize t); [done|].
  by destruct (getTenantConnection base (conns w) t ev) as [[c|e] σ'].
Qed.

Lemma getUserModel_wf base w t ev :
  wfWorld base w ->
  wfWorld base (getUserModel base w t ev).2 /\
  forall m, (getUserModel base w t ev).1 = Returned m ->
    pointsTo base (conns (getUserModel base w t ev).2) (normalize t) m.
Proof.
  intros [Hc Hm]. unfold getUserModel.
  destruct (tenantUserModels w !! normalize t) as [m0|] eqn:E; simpl.
  - split; [done|]. intros m [= <-]. by apply Hm.
  - destruct (resolve_wf base (conns w) t ev Hc) as [Hc' Hp].
    pose proof (fun k c => resolve_pointsTo_mono base (conns w) t ev k c) as Hmono.
    destruct (getTenantConnection base (conns w) t ev) as [[c|e] σ'] eqn:Er; simpl in *.
    + split; [split; [done|]|].
      * intros k m. simpl. rewrite lookup_insert. case_decide.
        -- intros [= <-]. subst k. by apply Hp.
        -- intros H'. apply Hmono. by apply Hm.
      * intros m [= <-]. by apply Hp.
    + split; [|done]. split; [done|]. intros k m H'. apply Hmono. by apply Hm.
Qed.

(** What a successful registration went through. *)
Lemma register_created_inv base RegExp schemas w ev newId now t D tid vf w' :
  register base RegExp schemas w ev newId now t D = (RegCreated tid vf, w') ->
  exists schema m w1 conn,
    findOne schemas t = Some schema /\
    isValid (validateFields RegExp (fields schema) D) = true /\
    getUserModel base w t ev = (Returned m, w1) /\
    heap (conns w1) !! m = Some conn /\
    tid = trim t /\
    vf = validatedFields (validateFields RegExp (fields schema) D) /\
    w' = {| conns := conns w1; tenantUserModels := tenantUserModels w1;
            databases :=
              <[uri conn :=
                  (default [] (databases w1 !! uri conn) ++
                   [{| user_id := newId; user_tenantId := trim t;
                       user_fields := vf; createdAt := now |}])%list]>
                (databases w1) |}.
Proof.
  unfold register. destruct (findOne schemas t) as [schema|]; [|discriminate].
  destruct (isValid (validateFields RegExp (fields schema) D)) eqn:Hv; [|discriminate].
  simpl. destruct (getUserModel base w t ev) as [[m|e] w1] eqn:Hm; [|discriminate].
  unfold save. destruct (String.eqb (trim t) ""); [discriminate|].
  destruct (heap (conns w1) !! m) as [conn|] eqn:Hh; [|discriminate].
  simpl. intros [= <- <- <-]. exists schema, m, w1, conn. done.
Qed.

Lemma register_failure_databases base RegExp schemas w ev newId now t D :
  (forall tid vf, (register base RegExp schemas w ev newId now t D).1 <> RegCreated tid vf) ->
  databases (register base RegExp schemas w ev newId now t D).2 = databases w.
Proof.
  unfold register. destruct (findOne schemas t) as [schema|]; [|done].
  destruct (isValid (validateFields RegExp (fields schema) D)); [|done]. simpl.
  pose proof (getUserModel_databases base w t ev) as Hd.
  destruct (getUserModel base w t ev) as [[m|e] w1]; simpl in *; [|done].
  unfold save. destruct (String.eqb (trim t) ""); [done|].
  destruct (heap (conns w1) !! m) as [conn|]; [|done].
  simpl. intros H. by destruct (H _ _ eq_refl).
Qed.


Lemma emptyWorld_wf base : wfWorld base emptyWorld.
Proof.
  split; [apply noConnections_wf|]. intros k m. simpl. by rewrite lookup_empty.
Qed.


(** ** Listing *)

Lemma listUsers_regular base irregularQuery w ev t q m w1 p l :
  getUserModel base w t ev = (Returned m, w1) ->
  parseInt (pageParam q) = Some p ->
  parseInt (limitParam q) = Some l ->
  1 ≤ p -> 1 ≤ l ->
  listUsers base irregularQuery w ev t q =
    (ListOk (take (Z.to_nat l)
               (drop (Z.to_nat ((p - 1) * l))
                  (merge_sort newerFirst (matching t (collectionOf w1 m)))))
            (paginationOf q (countDocuments (collectionOf w1 m) t)), w1).
Proof.
  intros Hm Hp Hl Hp1 Hl1. unfold listUsers. rewrite Hm.
  unfold skipOf, findPage. rewrite Hp, Hl.
  assert ((0 <=? (p - 1) * l) && (1 <=? l) = true) as ->; [|done].
  apply andb_true_iff. split; [apply Z.leb_le; nia|by apply Z.leb_le].
Qed.

Lemma getUserModel_cached base w t ev m :
  tenantUserModels w !! normalize t = Some m ->
  getUserModel base w t ev = (Returned m, w).
Proof. intros H. unfold getUserModel. by rewrite H. Qed.

Lemma matching_app t (l1 l2 : list RegisteredUser) :
  matching t (l1 ++ l2) = (matching t l1 ++ matching t l2)%list.
Proof. unfold matching. apply List.filter_app. Qed.

Lemma elem_of_matching t docs u :
  u ∈ matching t docs <-> u ∈ docs /\ user_tenantId u = trim t.
Proof.
  unfold matching. rewrite !list_elem_of_In, List.filter_In.
  by rewrite String.eqb_eq.
Qed.

(** The record that is strictly newer than all others comes first. *)
Lemma newest_is_first (L : list RegisteredUser) (d : RegisteredUser) :
  d ∈ L ->
  (forall x, x ∈ L -> x = d \/ createdAt x < createdAt d) ->
  exists rest, merge_sort newerFirst L = d :: rest.
Proof.
  intros Hd Hnew.
  pose proof (merge_sort_Permutation newerFirst L) as Hperm.
  pose proof (StronglySorted_merge_sort newerFirst L) as Hsorted.
  destruct (merge_sort newerFirst L) as [|h rest].
  - rewrite <- Hperm in Hd. by apply elem_of_nil in Hd.
  - assert (h ∈ L) as Hh by (rewrite <- Hperm; apply list_elem_of_here).
    destruct (Hnew h Hh) as [->|Hlt]; [by exists rest|]. exfalso.
    apply StronglySorted_cons in Hsorted as [Hall _].
    rewrite <- Hperm in Hd. apply elem_of_cons in Hd as [->|Hd]; [lia|].
    rewrite Forall_forall in Hall. specialize (Hall d Hd). unfold newerFirst in Hall. lia.
Qed.

Lemma register_created_collection base RegExp schemas w ev newId now t D tid vf w' :
  wfWorld base w ->
  register base RegExp schemas w ev newId now t D = (RegCreated tid vf, w') ->
  exists m,
    tenantUserModels w' !! normalize t = Some m /\
    collectionOf w' m =
      (tenantDatabase base w (normalize t) ++
       [{| user_id := newId; user_tenantId := trim t; user_fields := vf;
           createdAt := now |}])%list.
Proof.
  intros Hwf Hr.
  apply register_created_inv in Hr
    as (schema & m & w1 & conn & Hs & Hv & Hm & Hh & -> & -> & ->).
  destruct (getUserModel_wf base w t ev Hwf) as [_ Hp].
  pose proof (getUserModel_databases base w t ev) as Hd.
  pose proof (getUserModel_caches base w t ev m w1 Hm) as Hc.
  rewrite Hm in Hp, Hd. simpl in *.
  destruct (Hp m eq_refl) as (_ & conn' & Hh' & Huri).
  rewrite Hh in Hh'. injection Hh' as <-.
  exists m. split; [done|]. unfold collectionOf, tenantDatabase. simpl.
  by rewrite Hh, lookup_insert_eq, Huri, Hd.
Qed.

(** X23: Register, then list: when the clock has moved past the records
    already in the tenant's database, the record just created is the
    first one of the first page, whatever the page size. *)
Theorem register_then_list_shows_the_record_first :
  forall (base : string) RegExp
         (irregularQuery : option Z -> option Z -> list RegisteredUser ->
                           outcome (list RegisteredUser))
         (schemas : list FieldSchema) (w : World) (ev ev' : openEvent)
         (newId : string) (now : Z) (t : string) (D : gmap string jsval)
         (tid : string) (vf : gmap string jsval) (w' : World)
         (q : gmap string jsval) (l : Z),
  wfWorld base w ->
  register base RegExp schemas w ev newId now t D = (RegCreated tid vf, w') ->
  (forall u, u ∈ tenantDatabase base w (normalize t) -> createdAt u < now) ->
  q !! "page" = None ->
  parseInt (limitParam q) = Some l ->
  1 ≤ l ->
  exists rest info,
    listUsers base irregularQuery w' ev' t q =
      (ListOk ({| user_id := newId; user_tenantId := trim t; user_fields := vf;
                  createdAt := now |} :: rest) info, w').
Proof.
  intros base RegExp irr schemas w ev ev' newId now t D tid vf w' q l
    Hwf Hr Hold Hpage Hl Hl1.
  destruct (register_created_collection _ _ _ _ _ _ _ _ _ _ _ _ Hwf Hr) as (m & Hm & Hcoll).
  set (doc := {| user_id := newId; user_tenantId := trim t; user_fields := vf;
                 createdAt := now |}) in *.
  rewrite (listUsers_regular base irr w' ev' t q m w' 1 l);
    [|by apply getUserModel_cached| |done|lia|done].
  2: { unfold pageParam, getProp. by rewrite Hpage. }
  rewrite Hcoll, matching_app.
  assert (matching t [doc] = [doc]) as ->.
  { unfold matching. simpl. by rewrite String.eqb_refl. }
  destruct (newest_is_first (matching t (tenantDatabase base w (normalize t)) ++ [doc]) doc)
    as [rest ->].
  - apply elem_of_app. right. apply list_elem_of_here.
  - intros x [Hx|Hx]%elem_of_app.
    + right. apply elem_of_matching in Hx as [Hx _]. simpl. by apply Hold.
    + left. by apply list_elem_of_singleton in Hx.
  - replace (Z.to_nat ((1 - 1) * l)) with 0%nat by lia. rewrite drop_0.
    destruct (Z.to_nat l) as [|n] eqn:En; [lia|]. simpl. eauto.
Qed.

Lemma register_then_list_witness :
  exists rest info,
    listUsers localUri (fun _ _ _ => Thrown "rejected")
        (register localUri fragmentRegExp xyzSchemas (registered fragmentRegExp 3) Open
           (sampleId 4) 4 "xyz" {["name" := JStr "Ann"]}).2
        Open "xyz" {["limit" := JStr "2"]} =
      (ListOk ({| user_id := sampleId 4; user_tenantId := "xyz";
                  user_fields := {["name" := JStr "Ann"]}; createdAt := 4 |} :: rest) info,
       (register localUri fragmentRegExp xyzSchemas (registered fragmentRegExp 3) Open
          (sampleId 4) 4 "xyz" {["name" := JStr "Ann"]}).2).
Proof.
  assert (wfWorld localUri (registered fragmentRegExp 3)) as Hwf.
  { split.
    - intros k c Hk.
      assert (tenantConnections (conns (registered fragmentRegExp 3)) = {["xyz" := 0%nat]})
        as E by reflexivity.
      rewrite E in Hk. apply lookup_singleton_Some in Hk as [<- <-].
      split; [by vm_compute|]. eexists. split; reflexivity.
    - intros k c Hk.
      assert (tenantUserModels (registered fragmentRegExp 3) = {["xyz" := 0%nat]})
        as E by reflexivity.
      rewrite E in Hk. apply lookup_singleton_Some in Hk as [<- <-].
      split; [by vm_compute|]. eexists. split; reflexivity. }
  apply (register_then_list_shows_the_record_first localUri fragmentRegExp
           (fun _ _ _ => Thrown "rejected") xyzSchemas (registered fragmentRegExp 3)
           Open Open (sampleId 4) 4 "xyz" {["name" := JStr "Ann"]}
           "xyz" {["name" := JStr "Ann"]} _ {["limit" := JStr "2"]} 2 Hwf).
  - reflexivity.
  - intros u Hu.
    assert (tenantDatabase localUri (registered fragmentRegExp 3) (normalize "xyz") =
            [ {| user_id := sampleId 1; user_tenantId := "xyz";
                 user_fields := {["name" := JStr "Jo"]}; createdAt := 1 |};
              {| user_id := sampleId 2; user_tenantId := "xyz";
                 user_fields := {["name" := JStr "Jo"]}; createdAt := 2 |};
              {| user_id := sampleId 3; user_tenantId := "xyz";
                 user_fields := {["name" := JStr "Jo"]}; createdAt := 3 |} ]) as E
      by reflexivity.
    rewrite E in Hu.
    repeat (apply elem_of_cons in Hu as [->|Hu]; [simpl; lia|]).
    by apply elem_of_nil in Hu.
  - reflexivity.
  - reflexivity.
  - lia.
Defined.

Lemma getUserModel_collection base w t ev m w1 :
  wfWorld base w ->
  getUserModel base w t ev = (Returned m, w1) ->
  collectionOf w1 m = tenantDatabase base w (normalize t).
Proof.
  intros Hwf Hm.
  destruct (getUserModel_wf base w t ev Hwf) as [_ Hp].
  pose proof (getUserModel_databases base w t ev) as Hd.
  pose proof (getUserModel_caches base w t ev m w1 Hm) as Hc.
  rewrite Hm in Hp, Hd. simpl in *.
  destruct (Hp m eq_refl) as (_ & conn & Hh & Huri).
  unfold collectionOf, tenantDatabase. by rewrite Hh, Huri, Hd.
Qed.

Lemma elem_of_page {A} (x : A) (a b : nat) (l : list A) :
  x ∈ take a (drop b l) -> x ∈ l.
Proof.
  intros H.
  apply (elem_of_sublist _ l) in H; [done|].
  etransitivity; [apply sublist_take|apply sublist_drop].
Qed.

(** X24: A listing shows records of the tenant's own database and, of those,
    the ones stored under the requested id (trimmed): an id that shares
    the database through its normal form does not share the records. *)
Theorem listUsers_shows_only_own_records :
  forall (base : string)
         (irregularQuery : option Z -> option Z -> list RegisteredUser ->
                           outcome (list RegisteredUser))
         (w : World) (ev : openEvent) (t : string) (q : gmap string jsval) (p l : Z),
  wfWorld base w ->
  parseInt (pageParam q) = Some p ->
  parseInt (limitParam q) = Some l ->
  1 ≤ p -> 1 ≤ l ->
  forall u, u ∈ usersOf (listUsers base irregularQuery w ev t q).1 ->
    user_tenantId u = trim t /\ u ∈ tenantDatabase base w (normalize t).
Proof.
  intros base irr w ev t q p l Hwf Hp Hl Hp1 Hl1 u.
  destruct (getUserModel base w t ev) as [[m|e] w1] eqn:Hm.
  - rewrite (listUsers_regular base irr w ev t q m w1 p l Hm Hp Hl Hp1 Hl1). simpl.
    intros Hu%elem_of_page.
    rewrite (merge_sort_Permutation newerFirst) in Hu.
    apply elem_of_matching in Hu as [Hu Ht].
    rewrite (getUserModel_collection base w t ev m w1 Hwf Hm) in Hu. done.
  - unfold listUsers. rewrite Hm. simpl. by intros ?%elem_of_nil.
Qed.

Lemma listUsers_shows_only_own_records_witness :
  user_tenantId {| user_id := sampleId 3; user_tenantId := "xyz";
                   user_fields := {["name" := JStr "Jo"]}; createdAt := 3 |} = trim " xyz " /\
  {| user_id := sampleId 3; user_tenantId := "xyz";
     user_fields := {["name" := JStr "Jo"]}; createdAt := 3 |}
    ∈ tenantDatabase localUri (registered fragmentRegExp 3) (normalize " xyz ").
Proof.
  assert (wfWorld localUri (registered fragmentRegExp 3)) as Hwf.
  { split.
    - intros k c Hk.
      assert (tenantConnections (conns (registered fragmentRegExp 3)) = {["xyz" := 0%nat]})
        as E by reflexivity.
      rewrite E in Hk. apply lookup_singleton_Some in Hk as [<- <-].
      split; [by vm_compute|]. eexists. split; reflexivity.
    - intros k c Hk.
      assert (tenantUserModels (registered fragmentRegExp 3) = {["xyz" := 0%nat]})
        as E by reflexivity.
      rewrite E in Hk. apply lookup_singleton_Some in Hk as [<- <-].
      split; [by vm_compute|]. eexists. split; reflexivity. }
  apply (listUsers_shows_only_own_records localUri (fun _ _ _ => Thrown "rejected")
           (registered fragmentRegExp 3) Open " xyz " {["limit" := JStr "2"]} 1 2 Hwf);
    [reflexivity|reflexivity|lia|lia|].
  assert (usersOf (listUsers localUri (fun _ _ _ => Thrown "rejected")
                     (registered fragmentRegExp 3) Open " xyz " {["limit" := JStr "2"]}).1 =
          [ {| user_id := sampleId 3; user_tenantId := "xyz";
               user_fields := {["name" := JStr "Jo"]}; createdAt := 3 |};
            {| user_id := sampleId 2; user_tenantId := "xyz";
               user_fields := {["name" := JStr "Jo"]}; createdAt := 2 |} ]) as ->
    by reflexivity.
  apply list_elem_of_here.
Defined.

Lemma concat_pages {A} (S : list A) (l N : nat) :
  concat ((fun i => take l (drop (i * l) S)) <$> seq 0 N) = take (N * l) S.
Proof.
  induction N as [|N IH]; [done|].
  rewrite seq_S, fmap_app, concat_app, IH. simpl. rewrite app_nil_r.
  rewrite take_take_drop. f_equal. lia.
Qed.



(** ** One tenant's requests and another tenant's data *)

Lemma getUserModel_outcome base w t ev :
  (getUserModel base w t ev).1 =
    match tenantUserModels w !! normalize t with
    | Some m => Returned m
    | None =>
        match cachedLive (conns w) (normalize t) with
        | Some c => Returned c
        | None =>
            match ev with
            | Open => Returned (created (conns w))
            | Error message =>
                Thrown ("Failed to connect to tenant database: " ++ message)
            end
        end
    end.
Proof.
  unfold getUserModel. destruct (tenantUserModels w !! normalize t); [done|].
  unfold getTenantConnection, beginGetTenantConnection.
  destruct (cachedLive (conns w) (normalize t)); [done|]. by destruct ev.
Qed.

Lemma resolve_cachedLive_other base σ t ev k :
  wfConn base σ -> k <> normalize t ->
  cachedLive (getTenantConnection base σ t ev).2 k = cachedLive σ k.
Proof.
  intros Hwf Hk. unfold getTenantConnection, beginGetTenantConnection.
  destruct (cachedLive σ (normalize t)); [done|].
  destruct ev; unfold cachedLive; simpl; rewrite ?lookup_insert_ne by done;
    (destruct (tenantConnections σ !! k) as [c|] eqn:E; [|done]);
    destruct (Hwf k c E) as [Hlt _];
    rewrite setReadyState_lookup; (case_decide; [lia|]);
    by rewrite lookup_insert_ne by lia.
Qed.

Lemma getUserModel_other base w t ev k :
  wfWorld base w -> k <> normalize t ->
  tenantUserModels (getUserModel base w t ev).2 !! k = tenantUserModels w !! k /\
  cachedLive (conns (getUserModel base w t ev).2) k = cachedLive (conns w) k.
Proof.
  intros [Hc _] Hk. unfold getUserModel.
  destruct (tenantUserModels w !! normalize t); [done|].
  pose proof (resolve_cachedLive_other base (conns w) t ev k Hc Hk) as H.
  destruct (getTenantConnection base (conns w) t ev) as [[c|e] σ']; simpl in *;
    [by rewrite lookup_insert_ne|done].
Qed.

(** What [register] leaves as it was: the invariant, and everything a
    tenant with another normal form can see. *)
Lemma register_other base RegExp schemas w ev newId now t D k :
  wfWorld base w ->
  let w' := (register base RegExp schemas w ev newId now t D).2 in
  wfWorld base w' /\
  (k <> normalize t ->
   tenantUserModels w' !! k = tenantUserModels w !! k /\
   cachedLive (conns w') k = cachedLive (conns w) k /\
   tenantDatabase base w' k = tenantDatabase base w k).
Proof.
  intros Hwf. unfold register.
  destruct (findOne schemas t) as [schema|]; [|done].
  destruct (isValid (validateFields RegExp (fields schema) D)); [|done]. simpl.
  destruct (getUserModel_wf base w t ev Hwf) as [Hwf1 Hp].
  pose proof (getUserModel_databases base w t ev) as Hd.
  pose proof (getUserModel_other base w t ev k Hwf) as Ho.
  destruct (getUserModel base w t ev) as [[m|e] w1]; simpl in *.
  - unfold save. destruct (String.eqb (trim t) "").
    { simpl. split; [done|]. intros Hk. destruct (Ho Hk) as [? ?].
      unfold tenantDatabase. by rewrite Hd. }
    destruct (Hp m eq_refl) as (_ & conn & Hh & Huri). rewrite Hh. simpl.
    split; [done|]. intros Hk. destruct (Ho Hk) as [? ?].
    split; [done|]. split; [done|].
    unfold tenantDatabase. simpl. rewrite lookup_insert_ne, Hd; [done|].
    rewrite Huri. intros H'. by apply tenantUri_inj in H'.
  - split; [done|]. intros Hk. destruct (Ho Hk) as [? ?].
    unfold tenantDatabase. by rewrite Hd.
Qed.

(** The reply to a listing depends on the world only through what the
    tenant's normal form reaches. *)
Lemma listUsers_congr base irregularQuery w w' ev t q :
  wfWorld base w -> wfWorld base w' ->
  tenantUserModels w' !! normalize t = tenantUserModels w !! normalize t ->
  cachedLive (conns w') (normalize t) = cachedLive (conns w) (normalize t) ->
  tenantDatabase base w' (normalize t) = tenantDatabase base w (normalize t) ->
  (listUsers base irregularQuery w' ev t q).1 = (listUsers base irregularQuery w ev t q).1.
Proof.
  intros Hwf Hwf' Hmod Hlive Hdb.
  pose proof (getUserModel_outcome base w t ev) as Ho.
  pose proof (getUserModel_outcome base w' t ev) as Ho'.
  rewrite Hmod, Hlive in Ho'.
  pose proof (fun m w1 => getUserModel_collection base w t ev m w1 Hwf) as Hc.
  pose proof (fun m w1 => getUserModel_collection base w' t ev m w1 Hwf') as Hc'.
  unfold listUsers.
  destruct (getUserModel base w t ev) as [[m|e] w1];
    destruct (getUserModel base w' t ev) as [[m'|e'] w1']; simpl in Ho, Ho'.
  - rewrite (Hc m w1 eq_refl), (Hc' m' w1' eq_refl), Hdb.
    by destruct (findPage irregularQuery _ _ _ _).
  - exfalso. destruct (tenantUserModels w !! normalize t); [congruence|].
    destruct (cachedLive (conns w) (normalize t)); [congruence|].
    destruct ev; congruence.
  - exfalso. destruct (tenantUserModels w !! normalize t); [congruence|].
    destruct (cachedLive (conns w) (normalize t)); [congruence|].
    destruct ev; congruence.
  - simpl. f_equal.
    destruct (tenantUserModels w !! normalize t); [congruence|].
    destruct (cachedLive (conns w) (normalize t)); [congruence|].
    destruct ev; congruence.
Qed.

(** X26: Tenant isolation: whatever one tenant registers, and however that
    request ends, a tenant with another normal form gets the same reply
    to any listing as before. *)
Theorem registration_is_invisible_to_other_tenants :
  forall (base : string) RegExp
         (irregularQuery : option Z -> option Z -> list RegisteredUser ->
                           outcome (list RegisteredUser))
         (schemas : list FieldSchema) (w : World) (ev ev' : openEvent)
         (newId : string) (now : Z) (t1 t2 : string) (D q : gmap string jsval),
  wfWorld base w ->
  normalize t1 <> normalize t2 ->
  (listUsers base irregularQuery
     (register base RegExp schemas w ev newId now t1 D).2 ev' t2 q).1 =
  (listUsers base irregularQuery w ev' t2 q).1.
Proof.
  intros base RegExp irr schemas w ev ev' newId now t1 t2 D q Hwf Hne.
  destruct (register_other base RegExp schemas w ev newId now t1 D (normalize t2) Hwf)
    as [Hwf' Ho].
  destruct Ho as (Hm & Hl & Hd); [done|].
  by apply listUsers_congr.
Qed.

Lemma registration_is_invisible_witness :
  (listUsers localUri (fun _ _ _ => Thrown "rejected")
     (register localUri fragmentRegExp xyzSchemas (registered fragmentRegExp 3) Open
        (sampleId 4) 4 "xyz" {["name" := JStr "Ann"]}).2 Open "abc" ∅).1 =
  (listUsers localUri (fun _ _ _ => Thrown "rejected")
     (registered fragmentRegExp 3) Open "abc" ∅).1.
Proof.
  assert (wfWorld localUri (registered fragmentRegExp 3)) as Hwf.
  { split.
    - intros k c Hk.
      assert (tenantConnections (conns (registered fragmentRegExp 3)) = {["xyz" := 0%nat]})
        as E by reflexivity.
      rewrite E in Hk. apply lookup_singleton_Some in Hk as [<- <-].
      split; [by vm_compute|]. eexists. split; reflexivity.
    - intros k c Hk.
      assert (tenantUserModels (registered fragmentRegExp 3) = {["xyz" := 0%nat]})
        as E by reflexivity.
      rewrite E in Hk. apply lookup_singleton_Some in Hk as [<- <-].
      split; [by vm_compute|]. eexists. split; reflexivity. }
  apply (registration_is_invisible_to_other_tenants localUri fragmentRegExp
           (fun _ _ _ => Thrown "rejected") xyzSchemas (registered fragmentRegExp 3)
           Open Open (sampleId 4) 4 "xyz" "abc" {["name" := JStr "Ann"]} ∅ Hwf).
  by vm_compute.
Defined.

(** ** The shared validator, field by field *)

Lemma same_id_same_field (schemaFields : list FieldDefinition) (f f' : FieldDefinition) :
  NoDup (id <$> schemaFields) ->
  f ∈ schemaFields -> f' ∈ schemaFields -> id f = id f' -> f = f'.
Proof.
  intros Hnd [i Hi]%list_elem_of_lookup [j Hj]%list_elem_of_lookup Hid.
  assert (i = j) as ->.
  { apply (NoDup_lookup (id <$> schemaFields) i j (id f)); [done| |].
    - by rewrite list_lookup_fmap, Hi.
    - by rewrite list_lookup_fmap, Hj, Hid. }
  congruence.
Qed.


